(** * subset_font.js: detection of the icon glyphs used by the UI sources
      and publication of the reduced icon font.

    A shallow embedding of [assets/font/subset_font.js].  The script walks
    the UI source tree ([getAllFiles]), collects the characters written as
    [\u{XXXX}] escapes ([extractUnicodes]), hands them to the Fontmin engine
    and moves the engine's output in place of the published [icons.ttf]. *)

From Stdlib Require Import String Ascii.
From stdpp Require Import gmap list fin_maps.

Local Open Scope N_scope.

(** ** JavaScript values used by the script *)

(** A JavaScript string is a sequence of UTF-16 code units. *)
Abbreviation jsstring := (list N).

(** Literals of the script, written as Rocq strings of ASCII characters. *)
Definition js (s : string) : jsstring :=
  map N_of_ascii (list_ascii_of_string s).

(** Exceptions the script can meet. *)
Inductive exn :=
| RangeError                       (* String.fromCodePoint on a bad code point *)
| FsError (syscall : string)       (* an fs.*Sync call that throws *)
| EngineError.                     (* the [err] Fontmin hands to its callback *)

(** Result of evaluating an expression: a value, a thrown exception, or the
    loop bound of the model exhausted (shown never to happen). *)
Inductive res (A : Type) :=
| Ok (a : A)
| Throw (e : exn)
| OutOfFuel.
Arguments Ok {A} a.
Arguments Throw {A} e.
Arguments OutOfFuel {A}.

Module JS.

(** [String.prototype.endsWith] *)
Definition endsWith (s suffix : jsstring) : bool :=
  bool_decide (drop (length s - length suffix)%nat s = suffix).

(** The character class [[0-9a-fA-F]]. *)
Definition isHexDigit (c : N) : bool :=
  ((48 <=? c) && (c <=? 57)) || ((97 <=? c) && (c <=? 102))
  || ((65 <=? c) && (c <=? 70)).

Definition hexValue (c : N) : N :=
  if (48 <=? c) && (c <=? 57) then c - 48
  else if (97 <=? c) && (c <=? 102) then c - 87
  else c - 55.

(** The longest prefix of hex digits of a string, and what follows it. *)
Fixpoint hexRun (s : jsstring) : jsstring * jsstring :=
  match s with
  | c :: s' =>
      if isHexDigit c then let '(h, r) := hexRun s' in (c :: h, r)
      else ([], s)
  | [] => ([], [])
  end.

(** Positional value of a digit string in radix 16. *)
Definition hexNumber (digits : jsstring) : N :=
  fold_left (fun acc c => 16 * acc + hexValue c) digits 0.

(** [parseInt(s, 16)] on a string without leading white space, sign or
    [0x] prefix (capture group 1 of the pattern holds hex digits only):
    the value of the longest prefix of hex digits, [None] standing for
    [NaN] when that prefix is empty.  The value is kept exact; a Number
    rounds it only above 2^53, and rounding is monotone, so the comparison
    with 0x10FFFF made by [fromCodePoint] is not affected. *)
Definition parseInt16 (s : jsstring) : option N :=
  match fst (hexRun s) with
  | [] => None
  | digits => Some (hexNumber digits)
  end.

(** [String.fromCodePoint(n)]: one code unit in the Basic Multilingual
    Plane, a surrogate pair above it, RangeError outside 0..0x10FFFF and
    on [NaN]. *)
Definition fromCodePoint (n : option N) : res jsstring :=
  match n with
  | None => Throw RangeError
  | Some cp =>
      if cp <=? 0xFFFF then Ok [cp]
      else if cp <=? 0x10FFFF then
        Ok [0xD800 + N.shiftr (cp - 0x10000) 10;
            0xDC00 + N.land (cp - 0x10000) 0x3FF]
      else Throw RangeError
  end.

(** [String.prototype.codePointAt(0)], [None] for [undefined]. *)
Definition codePointAt0 (s : jsstring) : option N :=
  match s with
  | [] => None
  | hi :: rest =>
      if (0xD800 <=? hi) && (hi <=? 0xDBFF) then
        match rest with
        | lo :: _ =>
            if (0xDC00 <=? lo) && (lo <=? 0xDFFF)
            then Some ((hi - 0xD800) * 0x400 + (lo - 0xDC00) + 0x10000)
            else Some hi
        | [] => Some hi
        end
      else Some hi
  end.

(** A [Set] of strings: its elements in insertion order.  [add] of a
    member leaves the set as it is. *)
Definition set_add (x : jsstring) (s : list jsstring) : list jsstring :=
  if bool_decide (x ∈ s) then s else s ++ [x].

(** [Array.from(set).join('')] *)
Definition join (s : list jsstring) : jsstring := concat s.

End JS.

(** ** The pattern [/\\u\{([0-9a-fA-F]+)\}/g] *)

Module RegExp.

Record match_result := MatchResult {
  index : nat;          (* match.index *)
  group1 : jsstring     (* match[1], the hex digits *)
}.

(** A literal of the pattern at the head of [s]: what follows it. *)
Fixpoint literal (lit s : jsstring) : option jsstring :=
  match lit, s with
  | [], _ => Some s
  | c :: lit', c' :: s' =>
      if bool_decide (c = c') then literal lit' s' else None
  | _ :: _, [] => None
  end.

(** The pattern anchored at the head of [s]: the literal [\u{], the
    greedy run of hex digits, at least one, and the literal [}].  A
    shorter run cannot succeed where the greedy one fails, for the code
    unit after it would be a hex digit and not [}]. *)
Definition match_here (s : jsstring) : option jsstring :=
  match literal (js "\u{") s with
  | Some rest =>
      match JS.hexRun rest with
      | ((_ :: _) as hex, after) =>
          match literal (js "}") after with
          | Some _ => Some hex
          | None => None
          end
      | ([], _) => None
      end
  | None => None
  end.

(** Code units consumed by a match with hex digits [hex]. *)
Definition match_length (hex : jsstring) : nat := (4 + length hex)%nat.

(** Leftmost match in [s], whose head is at offset [i] of the input. *)
Fixpoint search (s : jsstring) (i : nat) : option match_result :=
  match match_here s with
  | Some hex => Some (MatchResult i hex)
  | None =>
      match s with
      | [] => None
      | _ :: s' => search s' (S i)
      end
  end.

(** [regex.exec(content)] for a global pattern whose [lastIndex] is
    [lastIndex]: the match found, and the new [lastIndex]. *)
Definition exec (content : jsstring) (lastIndex : nat)
  : option match_result * nat :=
  if bool_decide (length content < lastIndex)%nat then (None, 0%nat)
  else
    match search (drop lastIndex content) lastIndex with
    | Some m => (Some m, (index m + match_length (group1 m))%nat)
    | None => (None, 0%nat)
    end.

End RegExp.

(** ** Step 2 of the script: [extractUnicodes] *)

(** A path: the names from the root of the file system down. *)
Abbreviation path := (list jsstring).

Module Extraction.

(** The [while ((match = regex.exec(content)) !== null)] loop on one file;
    the state is the set and the pattern's [lastIndex]. *)
Fixpoint while_exec (fuel : nat) (content : jsstring) (lastIndex : nat)
    (unicodes : list jsstring) : res (list jsstring * nat) :=
  match fuel with
  | O => OutOfFuel
  | S fuel' =>
      match RegExp.exec content lastIndex with
      | (None, lastIndex') => Ok (unicodes, lastIndex')
      | (Some m, lastIndex') =>
          match JS.fromCodePoint (JS.parseInt16 (RegExp.group1 m)) with
          | Ok char =>
              while_exec fuel' content lastIndex' (JS.set_add char unicodes)
          | Throw e => Throw e
          | OutOfFuel => OutOfFuel
          end
      end
  end.

(** [files.forEach(file => ...)]; [readFileSync] is the file system's
    reading of a path as text, [None] where the call throws.  The pattern
    object is shared by all files, so its [lastIndex] is carried along. *)
Fixpoint forEach_file (readFileSync : path → option jsstring)
    (files : list path) (lastIndex : nat) (unicodes : list jsstring)
  : res (list jsstring * nat) :=
  match files with
  | [] => Ok (unicodes, lastIndex)
  | file :: files' =>
      match readFileSync file with
      | Some content =>
          match while_exec (S (length content)) content lastIndex unicodes with
          | Ok (unicodes', lastIndex') =>
              forEach_file readFileSync files' lastIndex' unicodes'
          | Throw e => Throw e
          | OutOfFuel => OutOfFuel
          end
      | None => Throw (FsError "readFileSync")
      end
  end.

(** The set [unicodes] when the loops are over. *)
Definition collect (readFileSync : path → option jsstring) (files : list path)
  : res (list jsstring) :=
  match forEach_file readFileSync files 0%nat [] with
  | Ok (unicodes, _) => Ok unicodes
  | Throw e => Throw e
  | OutOfFuel => OutOfFuel
  end.

Definition extractUnicodes (readFileSync : path → option jsstring)
    (files : list path) : res jsstring :=
  match collect readFileSync files with
  | Ok unicodes => Ok (JS.join unicodes)
  | Throw e => Throw e
  | OutOfFuel => OutOfFuel
  end.

End Extraction.

(** ** Step 1 of the script: [getAllFiles] *)

Module Discovery.

(** What [readdirSync] and [statSync] show of the tree under a directory:
    a file with its text, or a directory with its entries in the order
    [readdirSync] lists them.  Symbolic links are not modelled. *)
#[local] Unset Elimination Schemes.
Inductive node :=
| File (content : jsstring)
| Dir (entries : list (jsstring * node)).
#[local] Set Elimination Schemes.

Definition extension : jsstring := js ".slint".

(** [getAllFiles(dirPath, arrayOfFiles)] where [d] is what lies at
    [dirPath]; [None] when [readdirSync(dirPath)] throws, [dirPath] not
    being a directory.  [dirPath + "/" + file] and
    [path.join(dirPath, "/", file)] both denote the entry [file] of
    [dirPath]. *)
Fixpoint getAllFiles (dirPath : path) (d : node) (arrayOfFiles : list path)
    {struct d} : option (list path) :=
  match d with
  | File _ => None
  | Dir files =>
      (fix forEach (files : list (jsstring * node)) (arrayOfFiles : list path)
         : option (list path) :=
         match files with
         | [] => Some arrayOfFiles
         | (file, n) :: files' =>
             match n with
             | Dir _ =>
                 match getAllFiles (dirPath ++ [file]) n arrayOfFiles with
                 | Some arrayOfFiles' => forEach files' arrayOfFiles'
                 | None => None
                 end
             | File _ =>
                 if JS.endsWith file extension
                 then forEach files' (arrayOfFiles ++ [dirPath ++ [file]])
                 else forEach files' arrayOfFiles
             end
         end) files arrayOfFiles
  end.

(** The entry a relative path leads to; among entries of one name the
    first is taken. *)
Fixpoint resolve (n : node) (p : path) : option node :=
  match p with
  | [] => Some n
  | name :: p' =>
      match n with
      | File _ => None
      | Dir entries =>
          (fix find (entries : list (jsstring * node)) : option node :=
             match entries with
             | [] => None
             | (name', child) :: entries' =>
                 if bool_decide (name' = name) then resolve child p'
                 else find entries'
             end) entries
      end
  end.

(** [readFileSync(p, 'utf8')] for a path [p] under the directory [root]
    holding [d]. *)
Definition readTree (root : path) (d : node) (p : path)
  : option jsstring :=
  if bool_decide (take (length root) p = root) then
    match resolve d (drop (length root) p) with
    | Some (File content) => Some content
    | _ => None
    end
  else None.

End Discovery.

(** ** The file system the font artifacts live in *)

Module Fs.

(** An entry of the store: a file with its bytes, or a directory. *)
Inductive entry :=
| EFile (content : list N)
| EDir.

Abbreviation store := (gmap path entry).

(** The fs calls of the publishing step.  On top of the failures the store
    itself determines (a missing file, a directory that is not empty) the
    operating system may refuse any of them (permissions, a full disk, a
    file in use); [fails] of the environment says which. *)
Inductive call_site :=
| MkdirTemp | UnlinkTarget | CopyGenerated | UnlinkGenerated | RmdirTemp
| StatSource | StatTarget.

Definition existsSync (s : store) (p : path) : bool :=
  match s !! p with Some _ => true | None => false end.

(** Does directory [p] hold no entry? *)
Definition is_empty_dir (s : store) (p : path) : bool :=
  bool_decide (map_Forall (λ q _, ¬ (p `prefix_of` q ∧ q ≠ p)) s).

Definition unlinkSync (s : store) (p : path) : res store :=
  match s !! p with
  | Some (EFile _) => Ok (delete p s)
  | _ => Throw (FsError "unlink")
  end.

Definition copyFileSync (s : store) (src dst : path) : res store :=
  match s !! src, s !! dst with
  | Some (EFile content), Some EDir => Throw (FsError "copyfile")
  | Some (EFile content), _ => Ok (<[dst := EFile content]> s)
  | _, _ => Throw (FsError "copyfile")
  end.

Definition rmdirSync (s : store) (p : path) : res store :=
  match s !! p with
  | Some EDir =>
      if is_empty_dir s p then Ok (delete p s)
      else Throw (FsError "rmdir")
  | _ => Throw (FsError "rmdir")
  end.

(** [statSync(p).size]: the length of a file.  For a directory the size
    is whatever the platform reports for the directory entry (0 on
    Windows, the size of a block elsewhere) and is taken as 0; it is only
    printed. *)
Definition statSync_size (s : store) (p : path) : res nat :=
  match s !! p with
  | Some (EFile content) => Ok (length content)
  | Some EDir => Ok 0%nat
  | None => Throw (FsError "stat")
  end.

(** The directories [mkdirSync(p, { recursive: true })] has to find or
    make: [p] and the directories above it, the root apart. *)
Definition ancestors (p : path) : list path :=
  map (λ n, take n p) (seq 1 (length p)).

Definition mkdirSync_recursive (s : store) (p : path) : res store :=
  if forallb (λ q, match s !! q with
                   | Some (EFile _) => false
                   | _ => true
                   end) (ancestors p)
  then Ok (foldr (λ q s', match s' !! q with
                          | None => <[q := EDir]> s'
                          | Some _ => s'
                          end) s (ancestors p))
  else Throw (FsError "mkdir").

(** The files written by [.dest(dir)]. *)
Definition write_files (dir : path) (files : list (jsstring * list N))
    (s : store) : store :=
  fold_left (λ s' f, <[dir ++ [f.1] := EFile f.2]> s') files s.

End Fs.

(** ** The script *)

Module Script.
Import Fs.

(** What the script passes to Fontmin: [.src], [Fontmin.glyph]'s options
    and [.dest]. *)
Record engine_config := EngineConfig {
  src : path;
  text : jsstring;
  hinting : bool;
  dest : path
}.

(** What Fontmin hands to the callback of [run]: an error, or the files it
    has written into [dest], by name. *)
Inductive engine_result :=
| EngineErr (e : exn)
| EngineOk (files : list (jsstring * list N)).

(** Lines printed on the console. *)
Inductive log_event :=
| ErrSourceFontNotFound
| LogScanning
| LogFoundFiles (n : nat)
| LogExtracting
| LogFoundCharacters (text : jsstring)
| WarnNoIcons
| LogSubsetting
| ErrSubsetting (e : exn)
| LogGenerated
| LogSizes (original new : nat)
| ErrMoving (e : exn)
| ErrExpectedNotFound.

(** What a run depends on and does not change: where the repository is
    checked out, the UI sources under [SRC_DIR] ([None] when there is no
    such directory), the subsetting engine, and the refusals of the
    operating system. *)
Record env := Env {
  base : path;
  src_tree : option Discovery.node;
  engine : engine_config → store → engine_result;
  fails : call_site → bool
}.

(** What a run changes: the files, the console, and the calls made to the
    engine. *)
Record state := State {
  files : store;
  console : list log_event;
  engine_calls : list engine_config
}.

(** How a piece of the script ends: normally, by [process.exit(code)], or
    by an exception nobody caught; [Unbounded] is the bound of the model's
    loops exhausted. *)
Inductive outcome (A : Type) :=
| Returned (a : A)
| Exited (code : N)
| Uncaught (e : exn)
| Unbounded.
Arguments Returned {A} a.
Arguments Exited {A} code.
Arguments Uncaught {A} e.
Arguments Unbounded {A}.

Definition M (A : Type) : Type := state → outcome A * state.

#[global] Instance M_ret : MRet M := λ A a s, (Returned a, s).

#[global] Instance M_bind : MBind M := λ A B f m s,
  match m s with
  | (Returned a, s') => f a s'
  | (Exited code, s') => (Exited code, s')
  | (Uncaught e, s') => (Uncaught e, s')
  | (Unbounded, s') => (Unbounded, s')
  end.

Definition process_exit {A} (code : N) : M A := λ s, (Exited code, s).

Definition throw {A} (e : exn) : M A := λ s, (Uncaught e, s).

(** [try { body } catch (e) { handler }] *)
Definition try_catch {A} (body : M A) (handler : exn → M A) : M A := λ s,
  match body s with
  | (Uncaught e, s') => handler e s'
  | r => r
  end.

Definition console_log (l : log_event) : M unit := λ s,
  (Returned tt, State (files s) (console s ++ [l]) (engine_calls s)).

Definition lift {A} (r : res A) : M A := λ s,
  (match r with
   | Ok a => Returned a
   | Throw e => Uncaught e
   | OutOfFuel => Unbounded
   end, s).

Definition when (b : bool) (m : M unit) : M unit :=
  if b then m else mret tt.

(** The exit code of the process: that of [process.exit], 0 when the
    script and its callbacks return, 1 on an uncaught exception. *)
Definition exit_code {A} (o : outcome A) : option N :=
  match o with
  | Returned _ => Some 0
  | Exited code => Some code
  | Uncaught _ => Some 1
  | Unbounded => None
  end.

(** [path.resolve(from, segments)] for segments that are names or [..]. *)
Definition path_resolve (from : path) (segments : list jsstring) : path :=
  fold_left (λ p seg, if bool_decide (seg = js "..") then removelast p
                      else p ++ [seg]) segments from.

Section Run.
Variable E : env.

(** [__dirname]: the script lies in [assets/font] of the checkout. *)
Definition dirname : path := base E ++ [js "assets"; js "font"].

Definition SRC_DIR : path := path_resolve dirname [js ".."; js ".."; js "src"].
Definition FONT_SOURCE : path := path_resolve dirname [js "segoeicons.ttf"].
Definition OUTPUT_DIR : path := path_resolve dirname [].
Definition OUTPUT_FILE : jsstring := js "icons.ttf".
Definition TEMP_DIR : path :=
  path_resolve dirname [js ".."; js ".."; js "build"; js "temp_font"].

(** [path.join(TEMP_DIR, 'segoeicons.ttf')] and
    [path.join(OUTPUT_DIR, OUTPUT_FILE)] *)
Definition generatedFile : path := TEMP_DIR ++ [js "segoeicons.ttf"].
Definition targetFile : path := OUTPUT_DIR ++ [OUTPUT_FILE].

(** The fs calls, as steps of the script. *)
Definition exists_ (p : path) : M bool := λ s,
  (Returned (existsSync (files s) p), s).

Definition fs_update (site : call_site) (syscall : string)
    (op : store → res store) : M unit := λ s,
  if fails E site then (Uncaught (FsError syscall), s)
  else match op (files s) with
       | Ok files' => (Returned tt, State files' (console s) (engine_calls s))
       | Throw e => (Uncaught e, s)
       | OutOfFuel => (Unbounded, s)
       end.

Definition stat_size (site : call_site) (p : path) : M nat := λ s,
  if fails E site then (Uncaught (FsError "stat"), s)
  else lift (statSync_size (files s) p) s.

(** [getAllFiles(SRC_DIR)] *)
Definition discover : M (list path) :=
  match src_tree E with
  | Some d =>
      match Discovery.getAllFiles SRC_DIR d [] with
      | Some slintFiles => mret slintFiles
      | None => throw (FsError "scandir")
      end
  | None => throw (FsError "scandir")
  end.

(** [fs.readFileSync(file, 'utf8')] on the UI sources. *)
Definition readFileSync (file : path) : option jsstring :=
  match src_tree E with
  | Some d => Discovery.readTree SRC_DIR d file
  | None => None
  end.

(** The script up to the construction of the Fontmin object (lines
    12 to 86): it ends the process, or leaves the configuration
    [fontmin.run] is called with. *)
Definition toplevel : M engine_config :=
  found ← exists_ FONT_SOURCE;
  when (negb found) (console_log ErrSourceFontNotFound;; process_exit 1);;
  console_log LogScanning;;
  slintFiles ← discover;
  console_log (LogFoundFiles (length slintFiles));;
  console_log LogExtracting;;
  text ← lift (Extraction.extractUnicodes readFileSync slintFiles);
  console_log (LogFoundCharacters text);;
  when (bool_decide (length text = 0%nat))
       (console_log WarnNoIcons;; process_exit 0);;
  console_log LogSubsetting;;
  temp ← exists_ TEMP_DIR;
  when (negb temp)
       (fs_update MkdirTemp "mkdir" (λ s, mkdirSync_recursive s TEMP_DIR));;
  mret (EngineConfig FONT_SOURCE text false TEMP_DIR).

(** [fontmin.run]: the engine works on the configuration and the files
    it finds, and writes its output into [dest]; an engine that reports an
    error is taken to have written nothing.  The call is recorded. *)
Definition fontmin_run (config : engine_config) : M (option exn) := λ s,
  let s1 := State (files s) (console s) (engine_calls s ++ [config]) in
  match engine E config (files s) with
  | EngineErr e => (Returned (Some e), s1)
  | EngineOk written =>
      (Returned None,
       State (write_files (dest config) written (files s))
             (console s) (engine_calls s ++ [config]))
  end.

(** The body of the [try] block of the callback (lines 99 to 115):
    the engine's output is moved in place of the published font, the
    temporary directory is cleared, the sizes are printed ([LogSizes]
    stands for the three lines with the sizes and the reduction). *)
Definition publish : M unit :=
  target ← exists_ targetFile;
  when target
       (fs_update UnlinkTarget "unlink" (λ s, unlinkSync s targetFile));;
  fs_update CopyGenerated "copyfile"
            (λ s, copyFileSync s generatedFile targetFile);;
  console_log LogGenerated;;
  fs_update UnlinkGenerated "unlink" (λ s, unlinkSync s generatedFile);;
  fs_update RmdirTemp "rmdir" (λ s, rmdirSync s TEMP_DIR);;
  originalSize ← stat_size StatSource FONT_SOURCE;
  newSize ← stat_size StatTarget targetFile;
  console_log (LogSizes originalSize newSize).

(** The callback of [fontmin.run] (lines 88 to 123). *)
Definition callback (err : option exn) : M unit :=
  match err return M unit with
  | Some e => console_log (ErrSubsetting e);; process_exit 1
  | None => mret tt
  end;;
  generated ← exists_ generatedFile;
  if generated : bool then
    try_catch publish (λ e, console_log (ErrMoving e))
  else console_log ErrExpectedNotFound.

(** The whole run. *)
Definition main : M unit :=
  config ← toplevel;
  err ← fontmin_run config;
  callback err.

(** A run from the files [s]. *)
Definition run (s : store) : outcome unit * state := main (State s [] []).

End Run.

End Script.

(** ** Notions the properties are stated with *)

Module Spec.

Definition is_hex (s : jsstring) : Prop :=
  Forall (λ c, JS.isHexDigit c = true) s.

(** A well-formed escape [\u{hex}] occurs at offset [i] of [content]. *)
Definition escape_at (content : jsstring) (i : nat) (hex : jsstring) : Prop :=
  ∃ pre post,
    content = pre ++ js "\u{" ++ hex ++ js "}" ++ post
    ∧ length pre = i ∧ hex ≠ [] ∧ is_hex hex.

(** The hex digits of the escapes of a text, one position after the
    other, whether the scan of the pattern reaches the position or not. *)
Fixpoint scan (s : jsstring) : list jsstring :=
  match s with
  | [] => []
  | _ :: s' =>
      match RegExp.match_here s with
      | Some hex => hex :: scan s'
      | None => scan s'
      end
  end.

(** The character an escape with digits [hex] stands for. *)
Definition decode (hex : jsstring) : res jsstring :=
  JS.fromCodePoint (JS.parseInt16 hex).

(** Adding the characters of a list of escapes to a set, up to the first
    that cannot be decoded. *)
Fixpoint add_all (hexes : list jsstring) (unicodes : list jsstring)
  : res (list jsstring) :=
  match hexes with
  | [] => Ok unicodes
  | hex :: hexes' =>
      match decode hex with
      | Ok char => add_all hexes' (JS.set_add char unicodes)
      | Throw e => Throw e
      | OutOfFuel => OutOfFuel
      end
  end.

(** Lifting a result of [add_all] to the result of a loop, whose pattern
    is left with [lastIndex] 0. *)
Definition finished (r : res (list jsstring)) : res (list jsstring * nat) :=
  match r with
  | Ok unicodes => Ok (unicodes, 0%nat)
  | Throw e => Throw e
  | OutOfFuel => OutOfFuel
  end.

(** The escapes of a list of files, file after file; [None] when a file
    cannot be read. *)
Fixpoint escapes (readFileSync : path → option jsstring) (files : list path)
  : option (list jsstring) :=
  match files with
  | [] => Some []
  | file :: files' =>
      match readFileSync file, escapes readFileSync files' with
      | Some content, Some hexes => Some (scan content ++ hexes)
      | _, _ => None
      end
  end.

(** An escape with digits [hex] occurs in one of the files. *)
Definition escaped_in (readFileSync : path → option jsstring)
    (files : list path) (hex : jsstring) : Prop :=
  ∃ file content i,
    file ∈ files ∧ readFileSync file = Some content
    ∧ escape_at content i hex.

(** At offset [i] of [content] stands [\u{body}] where [body], free of
    [}], is empty or holds a code unit that is no hex digit. *)
Definition malformed_at (content : jsstring) (i : nat) : Prop :=
  ∃ pre body post,
    content = pre ++ js "\u{" ++ body ++ js "}" ++ post
    ∧ length pre = i ∧ (125 ∉ body) ∧ ¬ (body ≠ [] ∧ is_hex body).

(** The entry at the end of a relative path in a tree. *)
Inductive at_path : Discovery.node → path → Discovery.node → Prop :=
| at_here n : at_path n [] n
| at_child entries name child p n :
    (name, child) ∈ entries → at_path child p n →
    at_path (Discovery.Dir entries) (name :: p) n.

(** [files.forEach(...)] of [getAllFiles] on the entries of [dirPath]. *)
Fixpoint forEach_entry (dirPath : path)
    (files : list (jsstring * Discovery.node)) (arrayOfFiles : list path)
  : option (list path) :=
  match files with
  | [] => Some arrayOfFiles
  | (file, n) :: files' =>
      match n with
      | Discovery.Dir _ =>
          match Discovery.getAllFiles (dirPath ++ [file]) n arrayOfFiles with
          | Some arrayOfFiles' => forEach_entry dirPath files' arrayOfFiles'
          | None => None
          end
      | Discovery.File _ =>
          if JS.endsWith file Discovery.extension
          then forEach_entry dirPath files' (arrayOfFiles ++ [dirPath ++ [file]])
          else forEach_entry dirPath files' arrayOfFiles
      end
  end.

(** [p] is the path of a file under the directory [d] at [root] whose name
    ends with the extension. *)
Definition slint_file_under (root : path) (d : Discovery.node) (p : path)
  : Prop :=
  ∃ dirs name content,
    p = root ++ dirs ++ [name]
    ∧ at_path d (dirs ++ [name]) (Discovery.File content)
    ∧ ∃ stem, name = stem ++ Discovery.extension.

(** The files found through one entry of a directory. *)
Definition through (dirPath : path) (e : jsstring * Discovery.node)
    (p : path) : Prop :=
  match e.2 with
  | Discovery.File _ =>
      p = dirPath ++ [e.1] ∧ ∃ stem, e.1 = stem ++ Discovery.extension
  | Discovery.Dir _ => slint_file_under (dirPath ++ [e.1]) e.2 p
  end.

(** No two entries of a directory bear the same name. *)
Fixpoint unique_names (n : Discovery.node) : bool :=
  match n with
  | Discovery.File _ => true
  | Discovery.Dir entries =>
      bool_decide (NoDup entries.*1)
      && forallb (λ e, unique_names e.2) entries
  end.

(** The paths that lie in the temporary directory or above it. *)
Definition near_temp (E : Script.env) (q : path) : Prop :=
  q `prefix_of` Script.TEMP_DIR E ∨ Script.TEMP_DIR E `prefix_of` q.

(** The directory [p] holds [q] and nothing else. *)
Definition holds_only (s : Fs.store) (p q : path) : Prop :=
  ∀ q', p `prefix_of` q' → q' ≠ p → q' ≠ q → s !! q' = None.

(** A state with more lines on the console. *)
Definition logged (st : Script.state) (l : list Script.log_event)
  : Script.state :=
  Script.State (Script.files st) (Script.console st ++ l)
               (Script.engine_calls st).

(** A step that neither ends the process nor calls the engine. *)
Definition tame {A} (m : Script.M A) : Prop :=
  ∀ st o st', m st = (o, st') →
    ((∃ a, o = Script.Returned a) ∨ ∃ e, o = Script.Uncaught e)
    ∧ Script.engine_calls st' = Script.engine_calls st.

(** The temporary directory is a directory and holds nothing but the
    engine's output. *)
Definition temp_holds_output_only (E : Script.env) (s : Fs.store) : Prop :=
  s !! Script.TEMP_DIR E = Some Fs.EDir
  ∧ Fs.is_empty_dir (delete (Script.generatedFile E) s) (Script.TEMP_DIR E)
    = true.

(** What is expected of a run from the files [s] in which the glyph set
    is not empty and the engine succeeds and produces its output: the
    font is published and no larger than the source font, and the
    temporary file and directory are gone. *)
Definition publishes_smaller_and_cleans (E : Script.env) (s : Fs.store)
  : Prop :=
  ∀ config st1 written,
    Script.toplevel E (Script.State s [] []) = (Script.Returned config, st1) →
    Script.engine E config (Script.files st1) = Script.EngineOk written →
    Fs.existsSync
      (Fs.write_files (Script.TEMP_DIR E) written (Script.files st1))
      (Script.generatedFile E) = true →
    ∃ data size,
      Script.files (Script.run E s).2 !! Script.targetFile E
      = Some (Fs.EFile data)
      ∧ Fs.statSync_size s (Script.FONT_SOURCE E) = Ok size
      ∧ (length data ≤ size)%nat
      ∧ Script.files (Script.run E s).2 !! Script.generatedFile E = None
      ∧ Script.files (Script.run E s).2 !! Script.TEMP_DIR E = None.

End Spec.

(** ** Sample runs *)

Module Sample.
Import Discovery Fs Script.

(** UI sources with icons: an escape written twice, in upper and in lower
    case, one above the Basic Multilingual Plane, a malformed one, one in
    a file that is no [.slint] file, and a directory named like one. *)
Definition ui_sources : node :=
  Dir [(js "app.slint",
        File (js "Text { text: \u{E700}; } \u{e700} \u{1F600} \u{E7G0}"));
       (js "ui",
        Dir [(js "home.slint", File (js "\u{E701}\u{E700}"));
             (js "notes.txt", File (js "\u{E702}"));
             (js "old.slint", Dir [])])].

(** UI sources without any icon. *)
Definition plain_sources : node :=
  Dir [(js "app.slint", File (js "Text { text: none; }"))].

(** UI sources with an escape beyond the last code point. *)
Definition bad_sources : node :=
  Dir [(js "app.slint", File (js "\u{E700} \u{110000}"))].

(** The same sources, with one more file. *)
Definition grown_sources : node :=
  match ui_sources with
  | Dir entries => Dir (entries ++ [(js "new.slint", File (js "\u{E7FF}"))])
  | File content => File content
  end.

(** The [.slint] files of [ui_sources], the checkout being [repo]. *)
Definition icon_files : list path :=
  [[js "repo"; js "src"; js "app.slint"];
   [js "repo"; js "src"; js "ui"; js "home.slint"]].

Definition checkout : path := [js "repo"].

Definition no_refusal (site : call_site) : bool := false.

Definition copy_refused (site : call_site) : bool :=
  match site with CopyGenerated => true | _ => false end.

(** Engines: one that writes a subset of three bytes, one that writes
    more bytes than the source font has, one that writes nothing. *)
Definition subsetting (config : engine_config) (s : store) : engine_result :=
  EngineOk [(js "segoeicons.ttf", [0; 1; 0])].

Definition inflating (config : engine_config) (s : store) : engine_result :=
  EngineOk [(js "segoeicons.ttf", [0; 1; 0; 0; 0; 0])].

Definition silent (config : engine_config) (s : store) : engine_result :=
  EngineOk [].

Definition env_icons : env :=
  Env checkout (Some ui_sources) subsetting no_refusal.
Definition env_grown : env :=
  Env checkout (Some grown_sources) subsetting no_refusal.
Definition env_plain : env :=
  Env checkout (Some plain_sources) subsetting no_refusal.
Definition env_bad : env :=
  Env checkout (Some bad_sources) subsetting no_refusal.
Definition env_inflating : env :=
  Env checkout (Some ui_sources) inflating no_refusal.
Definition env_silent : env :=
  Env checkout (Some ui_sources) silent no_refusal.
Definition env_copy_refused : env :=
  Env checkout (Some ui_sources) subsetting copy_refused.

Definition source_font : list N := [0; 1; 0; 0; 0].
Definition old_icons : list N := [7; 7].

(** Files before a run: the source font alone; with a font published
    earlier; with a temporary directory left with a file in it. *)
Definition fresh : store := {[ FONT_SOURCE env_icons := EFile source_font ]}.

Definition published : store :=
  <[ targetFile env_icons := EFile old_icons ]> fresh.

Definition stale : store :=
  <[ TEMP_DIR env_icons ++ [js "old.ttf"] := EFile [9] ]>
    (<[ TEMP_DIR env_icons := EDir ]> fresh).

(** No source font. *)
Definition fontless : store := {[ targetFile env_icons := EFile old_icons ]}.

End Sample.

(** ** What line 63 prints *)

Module Report.

(** The digit [d] of [Number.prototype.toString(16)]. *)
Definition hexDigit (d : N) : N := if d <? 10 then 48 + d else 87 + d.

(** The digits of [n] in radix 16 put before [acc], last digit first. *)
Fixpoint toDigits (fuel : nat) (n : N) (acc : jsstring) : jsstring :=
  match fuel with
  | O => acc
  | S fuel' =>
      let acc' := hexDigit (n mod 16) :: acc in
      if n / 16 =? 0 then acc' else toDigits fuel' (n / 16) acc'
  end.

(** [n.toString(16)] for a non-negative integer; the number of binary
    digits of [n] bounds the number of its digits in radix 16. *)
Definition toString16 (n : N) : jsstring :=
  toDigits (S (N.to_nat (N.log2 n))) n [].

(** [String.prototype.toUpperCase] on the code units [a] to [z]; the other
    code units of the ASCII range, the digits among them, are kept. *)
Definition toUpperCase (s : jsstring) : jsstring :=
  map (λ c, if (97 <=? c) && (c <=? 122) then c - 32 else c) s.

(** [text.split('')]: one string for each code unit. *)
Definition split_units (text : jsstring) : list jsstring :=
  map (λ u, [u]) text.

(** [c => '\\u' + c.codePointAt(0).toString(16).toUpperCase()]; [None]
    where [codePointAt] yields [undefined] and [toString] throws. *)
Definition entry (c : jsstring) : option jsstring :=
  match JS.codePointAt0 c with
  | Some n => Some (js "\u" ++ toUpperCase (toString16 n))
  | None => None
  end.

(** [Array.prototype.join(separator)] *)
Definition join_with (separator : jsstring) (l : list jsstring) : jsstring :=
  match l with
  | [] => []
  | x :: l' => x ++ concat (map (λ y, separator ++ y) l')
  end.

(** What line 63 prints: [text.length], and the code units of [text] as
    escapes. *)
Definition found_count (text : jsstring) : nat := length text.

Definition listing (text : jsstring) : option jsstring :=
  join_with (js " ") <$> mapM entry (split_units text).

End Report.

(** ** More notions *)

Module Notions.

(** The digits [toString(16)] yields. *)
Definition lower_hex (c : N) : Prop := (48 ≤ c ≤ 57) ∨ (97 ≤ c ≤ 102).

(** The digits 0 to 9 and A to F. *)
Definition upper_hex (c : N) : Prop := (48 ≤ c ≤ 57) ∨ (65 ≤ c ≤ 70).

(** A character above U+FFFF, written with two code units. *)
Definition supplementary (c : jsstring) : bool :=
  match JS.codePointAt0 c with
  | Some cp => 0xFFFF <? cp
  | None => false
  end.

(** A step that changes no file outside the paths [touched]. *)
Definition frames (touched : path → Prop) {A} (m : Script.M A) : Prop :=
  ∀ st o st', m st = (o, st') →
    ∀ q, ¬ touched q → Script.files st' !! q = Script.files st !! q.

(** The paths the callback works on. *)
Definition published_or_temp (E : Script.env) (q : path) : Prop :=
  q = Script.targetFile E ∨ q = Script.generatedFile E
  ∨ q = Script.TEMP_DIR E.

End Notions.

(** ** More sample runs *)

Module MoreSample.
Import Fs Script.

(** An engine that reports an error. *)
Definition failing (config : engine_config) (s : store) : engine_result :=
  EngineErr EngineError.

Definition mkdir_refused (site : call_site) : bool :=
  match site with MkdirTemp => true | _ => false end.

Definition env_failing : env :=
  Env Sample.checkout (Some Sample.ui_sources) failing Sample.no_refusal.

Definition env_no_sources : env :=
  Env Sample.checkout None Sample.subsetting Sample.no_refusal.

Definition env_mkdir_refused : env :=
  Env Sample.checkout (Some Sample.ui_sources) Sample.subsetting mkdir_refused.

End MoreSample.

(** * Properties *)

(** ** JavaScript strings *)

Module JSFacts.
Import JS.

Lemma endsWith_spec s suffix :
  endsWith s suffix = true ↔ ∃ stem, s = stem ++ suffix.
Proof.
  unfold endsWith. rewrite bool_decide_eq_true. split.
  - intros H. exists (take (length s - length suffix) s).
    pose proof (take_drop (length s - length suffix) s) as Htd.
    by rewrite H in Htd.
  - intros [stem ->]. rewrite length_app.
    replace (length stem + length suffix - length suffix)%nat
      with (length stem) by lia.
    by rewrite drop_app_length.
Qed.

Lemma hex_not_backslash c : isHexDigit c = true → c ≠ 92.
Proof. unfold isHexDigit. intros H ->. discriminate. Qed.

Lemma hex_not_brace c : isHexDigit c = true → c ≠ 125.
Proof. unfold isHexDigit. intros H ->. discriminate. Qed.

Lemma hexRun_app h r :
  Spec.is_hex h →
  match r with [] => True | c :: _ => isHexDigit c = false end →
  hexRun (h ++ r) = (h, r).
Proof.
  intros Hh Hr. induction Hh as [|c h Hc _ IH]; simpl.
  - destruct r as [|c r]; [done|]. simpl. by rewrite Hr.
  - by rewrite Hc, IH.
Qed.

Lemma hexRun_spec s h r :
  hexRun s = (h, r) →
  s = h ++ r ∧ Spec.is_hex h
  ∧ match r with [] => True | c :: _ => isHexDigit c = false end.
Proof.
  revert h r. induction s as [|c s IH]; intros h r; simpl.
  - intros [= <- <-]. repeat split; constructor.
  - destruct (isHexDigit c) eqn:Hc.
    + destruct (hexRun s) as [h' r'] eqn:Hs. intros [= <- <-].
      destruct (IH _ _ eq_refl) as (-> & Hh & Hr).
      repeat split; [by constructor | done].
    + intros [= <- <-]. repeat split; [constructor | done].
Qed.

Lemma parseInt16_hex hex :
  hex ≠ [] → Spec.is_hex hex → parseInt16 hex = Some (hexNumber hex).
Proof.
  intros Hne Hh. unfold parseInt16.
  pose proof (hexRun_app hex [] Hh I) as H. rewrite app_nil_r in H.
  rewrite H. simpl. by destruct hex.
Qed.

(** [fromCodePoint] yields the UTF-16 form of the code point: reading the
    code point back gives it again. *)
Lemma codePointAt0_fromCodePoint cp c :
  fromCodePoint (Some cp) = Ok c → codePointAt0 c = Some cp.
Proof.
  unfold fromCodePoint.
  destruct (cp <=? 0xFFFF) eqn:Hbmp.
  - intros [= <-]. unfold codePointAt0.
    by destruct ((0xD800 <=? cp) && (cp <=? 0xDBFF)).
  - destruct (cp <=? 0x10FFFF) eqn:Hmax; [|done]. intros [= <-].
    apply N.leb_gt in Hbmp. apply N.leb_le in Hmax.
    set (x := cp - 0x10000).
    assert (Hx : x < 0x100000) by (unfold x; lia).
    assert (Hhi : N.shiftr x 10 < 0x400).
    { rewrite N.shiftr_div_pow2. apply N.Div0.div_lt_upper_bound.
      change (2 ^ 10 * 0x400) with 0x100000. done. }
    assert (Hlo : N.land x 0x3FF = x mod 0x400).
    { change 0x3FF with (N.ones 10). by rewrite N.land_ones. }
    assert (Hlo' : x mod 0x400 < 0x400) by (apply N.mod_lt; lia).
    unfold codePointAt0.
    replace ((0xD800 <=? 0xD800 + N.shiftr x 10)
             && (0xD800 + N.shiftr x 10 <=? 0xDBFF)) with true
      by (symmetry; apply andb_true_iff; split; apply N.leb_le; lia).
    replace ((0xDC00 <=? 0xDC00 + N.land x 0x3FF)
             && (0xDC00 + N.land x 0x3FF <=? 0xDFFF)) with true
      by (symmetry; apply andb_true_iff; split; apply N.leb_le; lia).
    f_equal. rewrite Hlo, N.shiftr_div_pow2.
    change (2 ^ 10) with 0x400.
    pose proof (N.div_mod x 0x400 ltac:(lia)). unfold x in *. lia.
Qed.

Lemma fromCodePoint_inj cp1 cp2 c :
  fromCodePoint (Some cp1) = Ok c → fromCodePoint (Some cp2) = Ok c →
  cp1 = cp2.
Proof.
  intros H1%codePointAt0_fromCodePoint H2%codePointAt0_fromCodePoint.
  congruence.
Qed.

Lemma fromCodePoint_nonempty n c : fromCodePoint n = Ok c → c ≠ [].
Proof.
  unfold fromCodePoint. destruct n as [cp|]; [|done].
  destruct (cp <=? 0xFFFF); [by intros [= <-]|].
  destruct (cp <=? 0x10FFFF); [by intros [= <-]|done].
Qed.

Lemma fromCodePoint_ok_iff cp :
  (∃ c, fromCodePoint (Some cp) = Ok c) ↔ cp ≤ 0x10FFFF.
Proof.
  unfold fromCodePoint. split.
  - intros [c H]. destruct (cp <=? 0xFFFF) eqn:H1; [apply N.leb_le in H1; lia|].
    destruct (cp <=? 0x10FFFF) eqn:H2; [by apply N.leb_le in H2|done].
  - intros H. destruct (cp <=? 0xFFFF); [eauto|].
    apply N.leb_le in H. rewrite H. eauto.
Qed.

Lemma fromCodePoint_throw_iff cp e :
  fromCodePoint (Some cp) = Throw e ↔ e = RangeError ∧ 0x10FFFF < cp.
Proof.
  unfold fromCodePoint. split.
  - destruct (cp <=? 0xFFFF) eqn:H1; [done|].
    destruct (cp <=? 0x10FFFF) eqn:H2; [done|].
    apply N.leb_gt in H2. by intros [= <-].
  - intros [-> H]. destruct (cp <=? 0xFFFF) eqn:H1; [apply N.leb_le in H1; lia|].
    apply N.leb_gt in H. by rewrite H.
Qed.

Lemma fromCodePoint_bounded n : fromCodePoint n ≠ OutOfFuel.
Proof.
  unfold fromCodePoint. destruct n as [cp|]; [|done].
  destruct (cp <=? 0xFFFF); [done|]. by destruct (cp <=? 0x10FFFF).
Qed.

Lemma set_add_elem x y s : y ∈ set_add x s ↔ y ∈ s ∨ y = x.
Proof.
  unfold set_add. case_bool_decide as H.
  - split; [by left|]. by intros [?| ->].
  - rewrite elem_of_app, list_elem_of_singleton. done.
Qed.

Lemma set_add_NoDup x s : NoDup s → NoDup (set_add x s).
Proof.
  intros Hs. unfold set_add. case_bool_decide as H; [done|].
  apply NoDup_app. split_and!; [done| |apply NoDup_singleton].
  intros y Hy ->%list_elem_of_singleton. done.
Qed.

End JSFacts.

(** ** The pattern *)

Module RegExpFacts.
Import RegExp Spec.

Lemma literal_spec lit s rest : literal lit s = Some rest ↔ s = lit ++ rest.
Proof.
  revert s. induction lit as [|c lit IH]; intros s; simpl.
  - split; [by intros [= ->] | by intros ->].
  - destruct s as [|c' s]; [done|]. case_bool_decide as Hc.
    + subst c'. rewrite IH. split; [by intros -> | by intros [= ->]].
    + split; [done | intros [= ? ?]; congruence].
Qed.

(** The anchored pattern accepts the strings [\u{hex}...] with [hex] a
    non-empty string of hex digits, and captures [hex]. *)
Lemma match_here_spec s hex :
  match_here s = Some hex ↔
  ∃ post, s = js "\u{" ++ hex ++ js "}" ++ post ∧ hex ≠ [] ∧ is_hex hex.
Proof.
  unfold match_here. split.
  - destruct (literal (js "\u{") s) as [rest|] eqn:Hlit; [|done].
    apply literal_spec in Hlit as ->.
    destruct (JS.hexRun rest) as [[|c h] after] eqn:Hrun; [done|].
    destruct (literal (js "}") after) as [post|] eqn:Hclose; [|done].
    intros [= <-]. apply literal_spec in Hclose as ->.
    apply JSFacts.hexRun_spec in Hrun as (-> & Hh & _).
    exists post. split_and!; done.
  - intros (post & -> & Hne & Hh).
    rewrite (proj2 (literal_spec _ _ (hex ++ js "}" ++ post)) eq_refl).
    rewrite (JSFacts.hexRun_app hex (js "}" ++ post) Hh) by done.
    destruct hex; [done|].
    by rewrite (proj2 (literal_spec (js "}") _ post) eq_refl).
Qed.

Lemma match_here_backslash c s hex :
  match_here (c :: s) = Some hex → c = 92.
Proof. intros (post & [= -> _] & _)%match_here_spec. done. Qed.

Lemma escape_at_here s hex :
  escape_at s 0 hex ↔ match_here s = Some hex.
Proof.
  rewrite match_here_spec. split.
  - intros (pre & post & -> & Hpre & Hne & Hh).
    apply nil_length_inv in Hpre as ->. eauto.
  - intros (post & -> & Hne & Hh). by exists [], post.
Qed.

Lemma escape_at_later c s i hex :
  escape_at (c :: s) (S i) hex ↔ escape_at s i hex.
Proof.
  split.
  - intros (pre & post & Heq & Hpre & Hne & Hh).
    destruct pre as [|c' pre]; [done|]. simplify_eq/=.
    by exists pre, post.
  - intros (pre & post & -> & Hpre & Hne & Hh).
    exists (c :: pre), post. simpl. by rewrite Hpre.
Qed.

Lemma escape_at_nil i hex : ¬ escape_at [] i hex.
Proof.
  intros (pre & post & Heq & _). by destruct pre.
Qed.

Lemma escape_at_drop s i hex :
  escape_at s i hex ↔ (i < length s)%nat ∧ match_here (drop i s) = Some hex.
Proof.
  revert i. induction s as [|c s IH]; intros i.
  - split; [by intros ?%escape_at_nil | simpl; lia].
  - destruct i as [|i].
    + rewrite escape_at_here. simpl. split; [intros; split; [lia|done] | by intros [_ ?]].
    + rewrite escape_at_later, IH. simpl. split; intros [? ?]; split; [lia|done|lia|done].
Qed.

(** The escapes of a text are those [scan] lists. *)
Lemma scan_elem s hex : hex ∈ scan s ↔ ∃ i, escape_at s i hex.
Proof.
  induction s as [|c s IH]; simpl.
  - split; [by intros ?%elem_of_nil | by intros [i ?%escape_at_nil]].
  - assert (Hrest : hex ∈ scan s ↔ ∃ i, escape_at (c :: s) (S i) hex).
    { rewrite IH. by setoid_rewrite escape_at_later. }
    destruct (match_here (c :: s)) as [hex'|] eqn:Hm.
    + rewrite elem_of_cons, Hrest. split.
      * intros [-> | [i Hi]]; [exists 0%nat; by apply escape_at_here | eauto].
      * intros [[|i] Hi]; [left | right; eauto].
        apply escape_at_here in Hi. congruence.
    + rewrite Hrest. split; [intros [i Hi]; eauto|].
      intros [[|i] Hi]; [|eauto]. apply escape_at_here in Hi. congruence.
Qed.

(** No escape starts where there is no backslash. *)
Lemma scan_skip l r : 92 ∉ l → scan (l ++ r) = scan r.
Proof.
  induction l as [|c l IH]; [done|]. intros Hl. simpl.
  destruct (match_here (c :: l ++ r)) as [hex|] eqn:Hm.
  - apply match_here_backslash in Hm as ->. set_solver.
  - apply IH. set_solver.
Qed.

Lemma is_hex_no_backslash hex : is_hex hex → 92 ∉ hex.
Proof.
  intros Hh Hin. eapply Forall_forall in Hh; [|done].
  by apply JSFacts.hex_not_backslash in Hh.
Qed.

Lemma is_hex_no_brace hex : is_hex hex → 125 ∉ hex.
Proof.
  intros Hh Hin. eapply Forall_forall in Hh; [|done].
  by apply JSFacts.hex_not_brace in Hh.
Qed.

(** No escape starts inside an escape: the scan may resume after it. *)
Lemma scan_match s hex :
  match_here s = Some hex →
  scan s = hex :: scan (drop (match_length hex) s)
  ∧ (match_length hex ≤ length s)%nat.
Proof.
  intros Hm. pose proof Hm as (post & -> & Hne & Hh)%match_here_spec.
  split.
  - change (js "\u{" ++ hex ++ js "}" ++ post)
      with (92 :: ([117; 123] ++ hex ++ [125] ++ post)) in *.
    cbn [scan]. rewrite Hm. f_equal.
    replace ([117; 123] ++ hex ++ [125] ++ post)
      with (([117; 123] ++ hex ++ [125]) ++ post)
      by (by rewrite <- !app_assoc).
    rewrite scan_skip.
    + unfold match_length.
      change (drop (4 + length hex) (92 :: (([117; 123] ++ hex ++ [125]) ++ post)))
        with (drop (1 + length hex) ((hex ++ [125]) ++ post)).
      rewrite drop_app_length'; [done|]. rewrite length_app. simpl. lia.
    + rewrite !not_elem_of_app. split_and!.
      * rewrite list_elem_of_In. simpl. intuition discriminate.
      * by apply is_hex_no_backslash.
      * rewrite list_elem_of_In. simpl. intuition discriminate.
  - unfold match_length. rewrite !length_app. simpl. lia.
Qed.

(** What [search] finds: the first escape from the head of [s] on. *)
Lemma search_spec s i :
  match search s i with
  | None => scan s = []
  | Some m =>
      ∃ k, index m = (i + k)%nat
           ∧ match_here (drop k s) = Some (group1 m)
           ∧ scan s = scan (drop k s)
           ∧ (k + match_length (group1 m) ≤ length s)%nat
  end.
Proof.
  revert i. induction s as [|c s IH]; intros i.
  - done.
  - cbn [search scan]. destruct (match_here (c :: s)) as [hex|] eqn:Hm.
    + exists 0%nat. cbn [drop index group1]. split_and!; [lia|done| |].
      * simpl. by rewrite Hm.
      * by apply scan_match in Hm as [_ ?].
    + specialize (IH (S i)). destruct (search s (S i)) as [m|]; [|done].
      destruct IH as (k & Hidx & Hk & Hscan & Hlen).
      exists (S k). cbn [drop length]. split_and!; [lia|done|done|lia].
Qed.

(** A match reported by [exec] is an escape of the text, at the reported
    offset. *)
Lemma exec_match content lastIndex m lastIndex' :
  exec content lastIndex = (Some m, lastIndex') →
  escape_at content (index m) (group1 m) ∧ (lastIndex ≤ index m)%nat.
Proof.
  unfold exec. case_bool_decide as Hlen; [done|].
  pose proof (search_spec (drop lastIndex content) lastIndex) as Hs.
  destruct (search (drop lastIndex content) lastIndex) as [m'|]; [|done].
  intros [= -> <-]. destruct Hs as (k & Hidx & Hk & _ & Hlen').
  rewrite drop_drop in Hk. rewrite length_drop in Hlen'.
  split; [|lia]. apply escape_at_drop. rewrite Hidx.
  split; [unfold match_length in *; lia | done].
Qed.

Lemma malformed_no_escape content i hex :
  malformed_at content i → ¬ escape_at content i hex.
Proof.
  intros (pre & body & post & -> & Hpre & Hbody & Hbad).
  intros (pre' & post' & Heq & Hpre' & Hne & Hh).
  apply app_inj_1 in Heq as [_ Heq]; [|lia].
  apply app_inv_head in Heq.
  change (js "}") with [125] in Heq.
  assert (body = hex) as ->; [|by apply Hbad].
  clear -Heq Hbody Hh. apply is_hex_no_brace in Hh.
  revert hex Heq Hh. induction body as [|b body IH]; intros [|h hex] Heq Hh.
  - done.
  - simplify_eq/=. set_solver.
  - simplify_eq/=. set_solver.
  - simplify_eq/=. f_equal. apply IH; set_solver.
Qed.

End RegExpFacts.

(** ** Code-point extraction *)

Module ExtractionFacts.
Import Extraction Spec.

(** The loop on one file adds the escapes from [lastIndex] on, and needs
    no more turns than the text has code units left. *)
Lemma while_exec_spec fuel content lastIndex unicodes :
  (length content - lastIndex < fuel)%nat →
  while_exec fuel content lastIndex unicodes
  = finished (add_all (scan (drop lastIndex content)) unicodes).
Proof.
  revert lastIndex unicodes.
  induction fuel as [|fuel IH]; intros lastIndex unicodes Hfuel; [lia|].
  cbn [while_exec]. unfold RegExp.exec.
  case_bool_decide as Hlen.
  { by rewrite drop_ge by lia. }
  pose proof (RegExpFacts.search_spec (drop lastIndex content) lastIndex) as Hs.
  destruct (RegExp.search (drop lastIndex content) lastIndex) as [m|].
  - destruct Hs as (k & Hidx & Hk & Hscan & Hlen').
    apply RegExpFacts.scan_match in Hk as [Hk _].
    rewrite Hscan, Hk, !drop_drop. cbn [add_all]. unfold decode.
    rewrite length_drop in Hlen'.
    destruct (JS.fromCodePoint _) as [char| |]; [|done|done].
    rewrite IH by (unfold RegExp.match_length in *; lia).
    by rewrite Hidx, Nat.add_assoc.
  - by rewrite Hs.
Qed.

Lemma add_all_app hexes1 hexes2 unicodes :
  add_all (hexes1 ++ hexes2) unicodes
  = match add_all hexes1 unicodes with
    | Ok unicodes' => add_all hexes2 unicodes'
    | r => r
    end.
Proof.
  revert unicodes. induction hexes1 as [|hex hexes1 IH]; intros unicodes.
  - done.
  - simpl. by destruct (decode hex).
Qed.

Lemma decode_bounded hex : decode hex ≠ OutOfFuel.
Proof. apply JSFacts.fromCodePoint_bounded. Qed.

Lemma add_all_bounded hexes unicodes : add_all hexes unicodes ≠ OutOfFuel.
Proof.
  revert unicodes. induction hexes as [|hex hexes IH]; intros unicodes; [done|].
  simpl. pose proof (decode_bounded hex). by destruct (decode hex).
Qed.

(** The set after [add_all]: duplicate-free if it was, and holding, on
    top of what it held, the characters of the escapes. *)
Lemma add_all_ok hexes unicodes unicodes' :
  add_all hexes unicodes = Ok unicodes' →
  (NoDup unicodes → NoDup unicodes')
  ∧ (∀ char, char ∈ unicodes' ↔
       char ∈ unicodes ∨ ∃ hex, hex ∈ hexes ∧ decode hex = Ok char)
  ∧ (∀ hex, hex ∈ hexes → ∃ char, decode hex = Ok char).
Proof.
  revert unicodes. induction hexes as [|hex hexes IH]; intros unicodes; simpl.
  - intros [= <-]. split_and!; [done| |by intros ? ?%elem_of_nil].
    intros char. split; [by left|]. by intros [?|(? & ?%elem_of_nil & _)].
  - destruct (decode hex) as [c| |] eqn:Hdec; [|done|done].
    intros (Hnd & Hin & Hall)%IH. split_and!.
    + intros ?. by apply Hnd, JSFacts.set_add_NoDup.
    + intros char. rewrite Hin, JSFacts.set_add_elem. split.
      * intros [[?| ->]|(hex' & ? & ?)]; [by left| |].
        -- right. exists hex. split; [by left|done].
        -- right. exists hex'. split; [by right|done].
      * intros [?|(hex' & [->|?]%elem_of_cons & Hd)]; [by left; left| |].
        -- left; right. congruence.
        -- right. eauto.
    + intros hex' [->|?]%elem_of_cons; eauto.
Qed.

Lemma add_all_throw hexes unicodes e :
  add_all hexes unicodes = Throw e →
  ∃ hex, hex ∈ hexes ∧ decode hex = Throw e.
Proof.
  revert unicodes. induction hexes as [|hex hexes IH]; intros unicodes; simpl.
  - done.
  - destruct (decode hex) as [c| |] eqn:Hdec.
    + intros (hex' & ? & ?)%IH. exists hex'. split; [by right|done].
    + intros [= <-]. exists hex. split; [by left|done].
    + done.
Qed.

Lemma add_all_total hexes unicodes :
  (∀ hex, hex ∈ hexes → ∃ char, decode hex = Ok char) →
  ∃ unicodes', add_all hexes unicodes = Ok unicodes'.
Proof.
  revert unicodes. induction hexes as [|hex hexes IH]; intros unicodes Hall.
  - by exists unicodes.
  - simpl. destruct (Hall hex) as [c ->]; [by left|].
    apply IH. intros hex' ?. apply Hall. by right.
Qed.

(** The loops over all files, when every file can be read, add the
    escapes of the files in order; the pattern is back at [lastIndex] 0
    before each file. *)
Lemma forEach_file_spec readFileSync files hexes unicodes :
  escapes readFileSync files = Some hexes →
  forEach_file readFileSync files 0 unicodes
  = finished (add_all hexes unicodes).
Proof.
  revert hexes unicodes.
  induction files as [|file files IH]; intros hexes unicodes;
    cbn [forEach_file escapes].
  - by intros [= <-].
  - destruct (readFileSync file) as [content|]; [|done].
    destruct (escapes readFileSync files) as [hexes'|]; [|done].
    intros [= <-]. rewrite while_exec_spec by lia. rewrite drop_0.
    rewrite add_all_app.
    destruct (add_all (scan content) unicodes) as [unicodes'| |]; simpl;
      [by apply IH|done|done].
Qed.

Lemma forEach_file_ok readFileSync files unicodes unicodes' lastIndex' :
  forEach_file readFileSync files 0 unicodes = Ok (unicodes', lastIndex') →
  ∃ hexes, escapes readFileSync files = Some hexes.
Proof.
  revert unicodes.
  induction files as [|file files IH]; intros unicodes;
    cbn [forEach_file escapes]; [eauto|].
  destruct (readFileSync file) as [content|]; [|done].
  rewrite while_exec_spec by lia.
  destruct (add_all _ unicodes) as [unicodes1| |]; simpl; [|done|done].
  intros [hexes ->]%IH. eauto.
Qed.

Lemma forEach_file_bounded readFileSync files unicodes :
  forEach_file readFileSync files 0 unicodes ≠ OutOfFuel.
Proof.
  revert unicodes.
  induction files as [|file files IH]; intros unicodes;
    cbn [forEach_file]; [done|].
  destruct (readFileSync file) as [content|]; [|done].
  rewrite while_exec_spec by lia.
  pose proof (add_all_bounded (scan (drop 0 content)) unicodes).
  destruct (add_all _ unicodes) as [unicodes1| |]; simpl; [apply IH|done|done].
Qed.

Lemma escapes_elem readFileSync files hexes hex :
  escapes readFileSync files = Some hexes →
  hex ∈ hexes ↔ escaped_in readFileSync files hex.
Proof.
  revert hexes. induction files as [|file files IH]; intros hexes; simpl.
  - intros [= <-]. split; [by intros ?%elem_of_nil|].
    by intros (? & ? & ? & ?%elem_of_nil & _).
  - destruct (readFileSync file) as [content|] eqn:Hread; [|done].
    destruct (escapes readFileSync files) as [hexes'|]; [|done].
    intros [= <-]. rewrite elem_of_app, RegExpFacts.scan_elem, (IH _ eq_refl).
    split.
    + intros [[i Hi]|(f & c & i & Hf & Hr & Hi)].
      * exists file, content, i. split_and!; [by left|done|done].
      * exists f, c, i. split_and!; [by right|done|done].
    + intros (f & c & i & [->|Hf]%elem_of_cons & Hr & Hi).
      * left. exists i. congruence.
      * right. by exists f, c, i.
Qed.

Lemma escapes_total readFileSync files :
  (∀ file, file ∈ files → is_Some (readFileSync file)) →
  ∃ hexes, escapes readFileSync files = Some hexes.
Proof.
  induction files as [|file files IH]; intros Hall; simpl; [eauto|].
  destruct (Hall file) as [content ->]; [by left|].
  destruct IH as [hexes ->]; [|eauto]. intros f ?. apply Hall. by right.
Qed.

Lemma decode_escape content i hex :
  escape_at content i hex →
  decode hex = JS.fromCodePoint (Some (JS.hexNumber hex)).
Proof.
  intros (_ & _ & _ & _ & Hne & Hh). unfold decode.
  by rewrite JSFacts.parseInt16_hex.
Qed.

Lemma collect_spec readFileSync files hexes :
  escapes readFileSync files = Some hexes →
  collect readFileSync files = add_all hexes [].
Proof.
  intros Hesc. unfold collect. rewrite (forEach_file_spec _ _ _ _ Hesc).
  by destruct (add_all hexes []).
Qed.

Lemma collect_ok readFileSync files unicodes :
  collect readFileSync files = Ok unicodes →
  ∃ hexes, escapes readFileSync files = Some hexes
           ∧ add_all hexes [] = Ok unicodes.
Proof.
  intros Hc. pose proof Hc as Hc'. unfold collect in Hc'.
  destruct (forEach_file readFileSync files 0 [])
    as [[unicodes' lastIndex']| |] eqn:Hfe; [|done|done].
  apply forEach_file_ok in Hfe as [hexes Hesc].
  exists hexes. split; [done|]. by rewrite <- (collect_spec _ _ _ Hesc).
Qed.

Lemma collect_bounded readFileSync files :
  collect readFileSync files ≠ OutOfFuel.
Proof.
  unfold collect. pose proof (forEach_file_bounded readFileSync files []).
  by destruct (forEach_file readFileSync files 0 []) as [[? ?]| |].
Qed.


(** An exception of the loops is the failure to read a file, or the
    RangeError of an escape beyond the last code point. *)
Lemma forEach_file_throw readFileSync files unicodes e :
  forEach_file readFileSync files 0 unicodes = Throw e →
  (e = FsError "readFileSync"
   ∧ ∃ file, file ∈ files ∧ readFileSync file = None)
  ∨ (e = RangeError
     ∧ ∃ hex, escaped_in readFileSync files hex
              ∧ 0x10FFFF < JS.hexNumber hex).
Proof.
  revert unicodes. induction files as [|file files IH]; intros unicodes;
    cbn [forEach_file]; [done|].
  destruct (readFileSync file) as [content|] eqn:Hread.
  - rewrite while_exec_spec, drop_0 by lia.
    destruct (add_all (scan content) unicodes) as [unicodes'|e'|] eqn:Hadd;
      cbn [finished].
    + intros [[-> (f & Hf & Hr)]|[-> (hex & (f & c & i & Hf & Hr & Hi) & Hbig)]]%IH.
      * left. split; [done|]. exists f. split; [by right|done].
      * right. split; [done|]. exists hex. split; [|done].
        exists f, c, i. split_and!; [by right|done|done].
    + intros [= ->]. apply add_all_throw in Hadd as (hex & Hin & Hdec).
      apply RegExpFacts.scan_elem in Hin as [i Hi].
      rewrite (decode_escape _ _ _ Hi) in Hdec.
      apply JSFacts.fromCodePoint_throw_iff in Hdec as [-> Hbig].
      right. split; [done|]. exists hex. split; [|done].
      exists file, content, i. split_and!; [by left|done|done].
    + done.
  - intros [= <-]. left. split; [done|]. exists file. split; [by left|done].
Qed.

Lemma collect_throw readFileSync files e :
  collect readFileSync files = Throw e →
  (e = FsError "readFileSync"
   ∧ ∃ file, file ∈ files ∧ readFileSync file = None)
  ∨ (e = RangeError
     ∧ ∃ hex, escaped_in readFileSync files hex
              ∧ 0x10FFFF < JS.hexNumber hex).
Proof.
  unfold collect.
  destruct (forEach_file readFileSync files 0 []) as [[? ?]|e'|] eqn:Hfe;
    [done| |done].
  intros [= <-]. by apply forEach_file_throw in Hfe.
Qed.

(** The loops see the file system through the files listed only. *)
Lemma forEach_file_ext read1 read2 files lastIndex unicodes :
  (∀ file, file ∈ files → read1 file = read2 file) →
  forEach_file read1 files lastIndex unicodes
  = forEach_file read2 files lastIndex unicodes.
Proof.
  revert lastIndex unicodes.
  induction files as [|file files IH]; intros lastIndex unicodes Hsame;
    cbn [forEach_file]; [done|].
  rewrite <- (Hsame file) by (by left).
  destruct (read1 file) as [content|]; [|done].
  destruct (while_exec _ content lastIndex unicodes) as [[u li]| |];
    [|done|done].
  apply IH. intros f ?. apply Hsame. by right.
Qed.

Lemma extract_RangeError readFileSync files hex :
  (∀ file, file ∈ files → is_Some (readFileSync file)) →
  escaped_in readFileSync files hex →
  0x10FFFF < JS.hexNumber hex →
  extractUnicodes readFileSync files = Throw RangeError.
Proof.
  intros Hread Hesc Hbig.
  destruct (escapes_total _ _ Hread) as [hexes Hhexes].
  unfold extractUnicodes. rewrite (collect_spec _ _ _ Hhexes).
  pose proof Hesc as (file & content & i & _ & _ & Hi).
  apply (escapes_elem _ _ _ _ Hhexes) in Hesc.
  assert (Hdec : decode hex = Throw RangeError).
  { rewrite (decode_escape _ _ _ Hi).
    by apply JSFacts.fromCodePoint_throw_iff. }
  destruct (add_all hexes []) as [unicodes|e|] eqn:Hadd.
  - apply add_all_ok in Hadd as (_ & _ & Hall).
    destruct (Hall hex Hesc) as [char Hchar]. congruence.
  - apply add_all_throw in Hadd as (hex' & Hin' & Hdec').
    apply (escapes_elem _ _ _ _ Hhexes) in Hin' as (f & c & i' & _ & _ & Hi').
    rewrite (decode_escape _ _ _ Hi') in Hdec'.
    by apply JSFacts.fromCodePoint_throw_iff in Hdec' as [-> _].
  - by apply add_all_bounded in Hadd.
Qed.

Lemma extract_nothing readFileSync files :
  (∀ file, file ∈ files → is_Some (readFileSync file)) →
  (∀ hex, ¬ escaped_in readFileSync files hex) →
  extractUnicodes readFileSync files = Ok [].
Proof.
  intros Hread Hnone.
  destruct (escapes_total _ _ Hread) as [hexes Hhexes].
  unfold extractUnicodes. rewrite (collect_spec _ _ _ Hhexes).
  destruct hexes as [|hex hexes]; [done|].
  destruct (Hnone hex). apply (escapes_elem _ _ _ _ Hhexes). by left.
Qed.

Lemma join_nil unicodes :
  (∀ char, char ∈ unicodes → char ≠ []) →
  JS.join unicodes = [] → unicodes = [].
Proof.
  intros Hne. destruct unicodes as [|char unicodes]; [done|].
  unfold JS.join. simpl. intros [Hc _]%app_eq_nil.
  destruct (Hne char); [by left|done].
Qed.

Lemma extractUnicodes_bounded readFileSync files :
  Extraction.extractUnicodes readFileSync files ≠ OutOfFuel.
Proof.
  unfold Extraction.extractUnicodes.
  pose proof (ExtractionFacts.collect_bounded readFileSync files).
  by destruct (Extraction.collect readFileSync files).
Qed.

End ExtractionFacts.

(** ** File discovery *)

Module DiscoveryFacts.
Import Discovery Spec.

(** Induction over a tree and the entries of its directories. *)
Lemma node_ind (P : node → Prop) :
  (∀ content, P (File content)) →
  (∀ entries, Forall (λ e, P e.2) entries → P (Dir entries)) →
  ∀ n, P n.
Proof.
  intros Hfile Hdir. fix IH 1. intros [content|entries].
  - apply Hfile.
  - apply Hdir. induction entries as [|[name child] entries IHentries].
    + constructor.
    + constructor; [apply IH | apply IHentries].
Qed.

Lemma getAllFiles_Dir dirPath entries arrayOfFiles :
  getAllFiles dirPath (Dir entries) arrayOfFiles
  = forEach_entry dirPath entries arrayOfFiles.
Proof.
  cbn [getAllFiles]. revert arrayOfFiles.
  induction entries as [|[file [content|sub]] entries IH]; intros arr.
  - done.
  - cbn [forEach_entry]. destruct (JS.endsWith file extension); apply IH.
  - cbn [forEach_entry].
    generalize (getAllFiles (dirPath ++ [file]) (Dir sub) arr).
    intros [arr'|]; [apply IH|done].
Qed.

Lemma at_path_file content p n :
  at_path (File content) p n → p = [] ∧ n = File content.
Proof. by inversion 1. Qed.

Lemma at_path_cons entries name p n :
  at_path (Dir entries) (name :: p) n ↔
  ∃ child, (name, child) ∈ entries ∧ at_path child p n.
Proof.
  split.
  - inversion 1; subst. eauto.
  - intros (child & ? & ?). by econstructor.
Qed.

Lemma slint_file_under_entries dirPath entries p :
  slint_file_under dirPath (Dir entries) p ↔
  ∃ e, e ∈ entries ∧ through dirPath e p.
Proof.
  split.
  - intros (dirs & name & content & -> & Hat & Hext).
    destruct dirs as [|dir dirs]; simpl in Hat;
      apply at_path_cons in Hat as (child & Hin & Hat).
    + exists (name, child). split; [done|]. unfold through; simpl.
      destruct child as [content'|sub]; [done|]. by inversion Hat.
    + exists (dir, child). split; [done|]. unfold through; simpl.
      destruct child as [content'|sub].
      * apply at_path_file in Hat as [Hnil _]. by destruct dirs.
      * exists dirs, name, content. rewrite <- !app_assoc. done.
  - intros ([name child] & Hin & Hthrough). unfold through in Hthrough.
    simpl in Hthrough. destruct child as [content|sub].
    + destruct Hthrough as [-> Hext]. exists [], name, content.
      split_and!; [done| |done]. simpl. econstructor; [done|constructor].
    + destruct Hthrough as (dirs & name' & content & -> & Hat & Hext).
      exists (name :: dirs), name', content. rewrite <- !app_assoc.
      split_and!; [done| |done]. simpl. by econstructor.
Qed.

Lemma forEach_entry_spec dirPath entries arrayOfFiles :
  Forall (λ e, ∀ dirPath arrayOfFiles sub, e.2 = Dir sub →
            ∃ found, getAllFiles dirPath e.2 arrayOfFiles
                     = Some (arrayOfFiles ++ found)
                     ∧ ∀ p, p ∈ found ↔ slint_file_under dirPath e.2 p)
         entries →
  ∃ found, forEach_entry dirPath entries arrayOfFiles
           = Some (arrayOfFiles ++ found)
           ∧ ∀ p, p ∈ found ↔ ∃ e, e ∈ entries ∧ through dirPath e p.
Proof.
  intros Hall. revert arrayOfFiles.
  induction Hall as [|[file n] entries Hn _ IH]; intros arr.
  - exists []. rewrite app_nil_r. split; [done|]. intros p.
    split; [by intros ?%elem_of_nil | by intros (? & ?%elem_of_nil & _)].
  - cbn [forEach_entry]. destruct n as [content|sub].
    + destruct (JS.endsWith file extension) eqn:Hext.
      * destruct (IH (arr ++ [dirPath ++ [file]])) as (found & -> & Hfound).
        exists ((dirPath ++ [file]) :: found). rewrite <- app_assoc.
        split; [done|]. intros p. rewrite elem_of_cons, Hfound. split.
        -- intros [->|(e & ? & ?)].
           ++ exists (file, File content). split; [by left|].
              split; [done|]. by apply JSFacts.endsWith_spec.
           ++ exists e. split; [by right|done].
        -- intros (e & [->|?]%elem_of_cons & He).
           ++ left. by destruct He.
           ++ right. eauto.
      * destruct (IH arr) as (found & -> & Hfound).
        exists found. split; [done|]. intros p. rewrite Hfound. split.
        -- intros (e & ? & ?). exists e. split; [by right|done].
        -- intros (e & [->|?]%elem_of_cons & He); [|eauto].
           destruct He as [_ Hstem%JSFacts.endsWith_spec]. simpl in Hstem.
           congruence.
    + destruct (Hn (dirPath ++ [file]) arr sub eq_refl) as (found1 & Hg & Hf1).
      cbn [snd] in Hg, Hf1. rewrite Hg.
      destruct (IH (arr ++ found1)) as (found2 & -> & Hf2).
      exists (found1 ++ found2). rewrite <- app_assoc. split; [done|].
      intros p. rewrite elem_of_app, Hf1, Hf2. split.
      * intros [?|(e & ? & ?)].
        -- exists (file, Dir sub). split; [by left|done].
        -- exists e. split; [by right|done].
      * intros (e & [->|?]%elem_of_cons & He); [by left|right; eauto].
Qed.

(** On a directory, [getAllFiles] appends to the array the files under it
    whose name ends with the extension, and nothing else. *)
Lemma getAllFiles_spec d :
  ∀ dirPath arrayOfFiles entries, d = Dir entries →
  ∃ found, getAllFiles dirPath d arrayOfFiles = Some (arrayOfFiles ++ found)
           ∧ ∀ p, p ∈ found ↔ slint_file_under dirPath d p.
Proof.
  induction d as [content|entries IH] using node_ind;
    intros dirPath arr entries' Heq; [done|].
  rewrite getAllFiles_Dir.
  destruct (forEach_entry_spec dirPath entries arr IH) as (found & -> & Hf).
  exists found. split; [done|]. intros p.
  by rewrite Hf, slint_file_under_entries.
Qed.


Lemma resolve_entry entries name child p :
  NoDup entries.*1 → (name, child) ∈ entries →
  resolve (Dir entries) (name :: p) = resolve child p.
Proof.
  cbn [resolve]. induction entries as [|[name' child'] entries IH];
    intros Hnd Hin.
  - by apply elem_of_nil in Hin.
  - cbn [fmap list_fmap fst] in Hnd. apply NoDup_cons in Hnd as [Hfresh Hnd].
    case_bool_decide as Hname.
    + subst name'. apply elem_of_cons in Hin as [[= <-]|Hin]; [done|].
      destruct Hfresh. apply list_elem_of_fmap. by exists (name, child).
    + apply elem_of_cons in Hin as [[= <- <-]|Hin]; [done|]. by apply IH.
Qed.

Lemma unique_names_Dir entries :
  unique_names (Dir entries) = true ↔
  NoDup entries.*1 ∧ ∀ e, e ∈ entries → unique_names e.2 = true.
Proof.
  cbn [unique_names]. rewrite andb_true_iff, bool_decide_eq_true.
  rewrite forallb_forall. by setoid_rewrite list_elem_of_In.
Qed.

Lemma resolve_at_path n p n' :
  unique_names n = true → at_path n p n' → resolve n p = Some n'.
Proof.
  intros Hu Hat. induction Hat as [n|entries name child p n Hin Hat IH].
  - by destruct n.
  - apply unique_names_Dir in Hu as [Hnd Hall].
    rewrite (resolve_entry entries name child) by done.
    apply IH. by apply (Hall (name, child)).
Qed.

(** The files discovered can be read. *)
Lemma getAllFiles_readable root d found p :
  unique_names d = true →
  getAllFiles root d [] = Some found → p ∈ found →
  is_Some (readTree root d p).
Proof.
  intros Hu Hfound Hp. destruct d as [content|entries]; [done|].
  destruct (getAllFiles_spec (Dir entries) root [] entries eq_refl)
    as (found' & Hfound' & Hspec).
  rewrite Hfound in Hfound'. injection Hfound' as ->.
  apply Hspec in Hp as (dirs & name & content & -> & Hat & _).
  unfold readTree. rewrite take_app_length, bool_decide_eq_true_2 by done.
  rewrite drop_app_length. by rewrite (resolve_at_path _ _ _ Hu Hat).
Qed.

Lemma forEach_entry_found dirPath entries arrayOfFiles :
  ∃ found, forEach_entry dirPath entries arrayOfFiles
           = Some (arrayOfFiles ++ found)
           ∧ ∀ p, p ∈ found ↔ ∃ e, e ∈ entries ∧ through dirPath e p.
Proof.
  apply forEach_entry_spec, Forall_forall.
  intros e _ dirPath' arr sub Heq. by apply (getAllFiles_spec e.2 _ _ sub).
Qed.

Lemma through_prefix dirPath e p :
  through dirPath e p → ∃ rest, p = dirPath ++ e.1 :: rest.
Proof.
  unfold through. destruct e as [name [content|sub]]; cbn [fst snd].
  - intros [-> _]. by exists [].
  - intros (dirs & name' & _ & -> & _). exists (dirs ++ [name']).
    by rewrite <- app_assoc.
Qed.

Lemma through_name dirPath e1 e2 p :
  through dirPath e1 p → through dirPath e2 p → e1.1 = e2.1.
Proof.
  intros [rest1 ->]%through_prefix [rest2 Heq]%through_prefix.
  apply app_inv_head in Heq. by injection Heq.
Qed.

Lemma forEach_entry_NoDup dirPath entries :
  Forall (λ e, ∀ dirPath arrayOfFiles found,
            unique_names e.2 = true →
            getAllFiles dirPath e.2 arrayOfFiles = Some (arrayOfFiles ++ found) →
            NoDup found) entries →
  NoDup entries.*1 → (∀ e, e ∈ entries → unique_names e.2 = true) →
  ∀ arrayOfFiles found,
    forEach_entry dirPath entries arrayOfFiles = Some (arrayOfFiles ++ found) →
    NoDup found.
Proof.
  intros Hall. induction Hall as [|[file n] entries Hn _ IH];
    intros Hnames Hu arr found.
  - cbn [forEach_entry]. intros [= Heq].
    rewrite <- (app_nil_r arr) in Heq at 1. apply app_inv_head in Heq as <-.
    constructor.
  - cbn [fmap list_fmap fst] in Hnames.
    apply NoDup_cons in Hnames as [Hfresh Hnames].
    assert (Hu' : ∀ e, e ∈ entries → unique_names e.2 = true).
    { intros e ?. apply Hu. by right. }
    assert (Hother : ∀ p e, e ∈ entries → through dirPath e p →
                     ¬ through dirPath (file, n) p).
    { intros p e Hin He Hfile. destruct Hfresh.
      pose proof (through_name _ _ _ _ He Hfile) as Hname.
      cbn [fst] in Hname. rewrite <- Hname. apply list_elem_of_fmap.
      by exists e. }
    cbn [forEach_entry]. destruct n as [content|sub].
    + destruct (JS.endsWith file extension) eqn:Hext.
      * destruct (forEach_entry_found dirPath entries (arr ++ [dirPath ++ [file]]))
          as (found' & Hfe & Hfound').
        rewrite Hfe, <- app_assoc. intros [= Heq].
        apply app_inv_head in Heq as <-. apply NoDup_cons. split.
        -- intros (e & Hin & He)%Hfound'. apply (Hother _ e Hin He).
           split; [done|]. by apply JSFacts.endsWith_spec.
        -- by apply (IH Hnames Hu' (arr ++ [dirPath ++ [file]])).
      * by apply IH.
    + destruct (getAllFiles_spec (Dir sub) (dirPath ++ [file]) arr sub eq_refl)
        as (found1 & Hg & Hf1).
      rewrite Hg.
      destruct (forEach_entry_found dirPath entries (arr ++ found1))
        as (found2 & Hfe & Hf2).
      rewrite Hfe, <- app_assoc. intros [= Heq].
      apply app_inv_head in Heq as <-. apply NoDup_app. split_and!.
      * apply (Hn (dirPath ++ [file]) arr found1); [|done].
        apply (Hu (file, Dir sub)). by left.
      * intros p Hp1%Hf1 (e & Hin & He)%Hf2. by apply (Hother _ e Hin He).
      * by apply (IH Hnames Hu' (arr ++ found1)).
Qed.

(** A tree without two entries of one name in a directory: no file is
    found twice. *)
Lemma getAllFiles_NoDup d :
  ∀ dirPath arrayOfFiles found,
    unique_names d = true →
    getAllFiles dirPath d arrayOfFiles = Some (arrayOfFiles ++ found) →
    NoDup found.
Proof.
  induction d as [content|entries IH] using node_ind;
    intros dirPath arr found Hu; [done|].
  apply unique_names_Dir in Hu as [Hnames Hu].
  rewrite getAllFiles_Dir. by apply forEach_entry_NoDup.
Qed.

End DiscoveryFacts.

(** ** The script *)

Module ScriptFacts.
Import Fs Script Spec.

(** *** The fixed paths *)

Lemma SRC_DIR_eq E : SRC_DIR E = base E ++ [js "src"].
Proof.
  unfold SRC_DIR, dirname, path_resolve. cbn [fold_left].
  change (bool_decide (js ".." = js "..")) with true.
  change (bool_decide (js "src" = js "..")) with false. cbn match.
  rewrite (removelast_app (base E)) by done. cbn [removelast].
  rewrite (removelast_app (base E)) by done. cbn [removelast]. by rewrite !app_nil_r.
Qed.

Lemma TEMP_DIR_eq E : TEMP_DIR E = base E ++ [js "build"; js "temp_font"].
Proof.
  unfold TEMP_DIR, dirname, path_resolve. cbn [fold_left].
  change (bool_decide (js ".." = js "..")) with true.
  change (bool_decide (js "build" = js "..")) with false.
  change (bool_decide (js "temp_font" = js "..")) with false. cbn match.
  rewrite (removelast_app (base E)) by done. cbn [removelast].
  rewrite (removelast_app (base E)) by done. cbn [removelast].
  by rewrite !app_nil_r, <- app_assoc.
Qed.

Lemma FONT_SOURCE_eq E :
  FONT_SOURCE E = base E ++ [js "assets"; js "font"; js "segoeicons.ttf"].
Proof.
  unfold FONT_SOURCE, dirname, path_resolve. cbn [fold_left].
  change (bool_decide (js "segoeicons.ttf" = js "..")) with false.
  cbn match. by rewrite <- app_assoc.
Qed.

Lemma targetFile_eq E :
  targetFile E = base E ++ [js "assets"; js "font"; js "icons.ttf"].
Proof.
  unfold targetFile, OUTPUT_DIR, OUTPUT_FILE, dirname, path_resolve.
  cbn [fold_left]. by rewrite <- app_assoc.
Qed.

Lemma generatedFile_eq E :
  generatedFile E
  = base E ++ [js "build"; js "temp_font"; js "segoeicons.ttf"].
Proof. unfold generatedFile. by rewrite TEMP_DIR_eq, <- app_assoc. Qed.

(** Paths of the script that differ below the checkout. *)
Ltac differ :=
  rewrite ?TEMP_DIR_eq, ?FONT_SOURCE_eq, ?targetFile_eq, ?generatedFile_eq,
    <- ?app_assoc;
  let H := fresh in
  intros H; apply app_inv_head in H; vm_compute in H; discriminate H.

Lemma target_not_generated E : targetFile E ≠ generatedFile E.
Proof. differ. Qed.
Lemma target_not_temp E : targetFile E ≠ TEMP_DIR E.
Proof. differ. Qed.
Lemma generated_not_temp E : generatedFile E ≠ TEMP_DIR E.
Proof. differ. Qed.
Lemma source_not_target E : FONT_SOURCE E ≠ targetFile E.
Proof. differ. Qed.
Lemma source_not_generated E : FONT_SOURCE E ≠ generatedFile E.
Proof. differ. Qed.
Lemma source_not_temp E : FONT_SOURCE E ≠ TEMP_DIR E.
Proof. differ. Qed.

Lemma target_far E : ¬ near_temp E (targetFile E).
Proof.
  unfold near_temp. rewrite TEMP_DIR_eq, targetFile_eq.
  intros [H|H]; apply prefix_app_inv in H; destruct H as [k H];
    vm_compute in H; discriminate H.
Qed.

Lemma source_far E : ¬ near_temp E (FONT_SOURCE E).
Proof.
  unfold near_temp. rewrite TEMP_DIR_eq, FONT_SOURCE_eq.
  intros [H|H]; apply prefix_app_inv in H; destruct H as [k H];
    vm_compute in H; discriminate H.
Qed.


(** *** The store *)

Lemma ancestors_prefix p q : q ∈ ancestors p → q `prefix_of` p.
Proof.
  unfold ancestors. intros (n & -> & _)%list_elem_of_fmap.
  apply prefix_take.
Qed.

Lemma ancestors_self p : p ≠ [] → p ∈ ancestors p.
Proof.
  intros Hp. unfold ancestors. apply list_elem_of_fmap.
  exists (length p). split; [by rewrite firstn_all|].
  apply elem_of_seq. destruct p; [done|]. simpl. lia.
Qed.

Lemma mkdir_fold_lookup (s : store) dirs q :
  foldr (λ q s', match s' !! q with
                 | None => <[q := EDir]> s'
                 | Some _ => s'
                 end) s dirs !! q
  = match s !! q with
    | Some e => Some e
    | None => if bool_decide (q ∈ dirs) then Some EDir else None
    end.
Proof.
  induction dirs as [|d dirs IH]; simpl.
  - by destruct (s !! q).
  - set (s' := foldr _ s dirs) in *.
    destruct (decide (d = q)) as [->|Hne].
    + destruct (s' !! q) as [e|] eqn:Hd.
      * rewrite Hd. rewrite IH in Hd. destruct (s !! q); [done|].
        rewrite bool_decide_eq_true_2 by (by left).
        case_bool_decide; congruence.
      * rewrite lookup_insert_eq. rewrite IH in Hd.
        destruct (s !! q); [done|].
        by rewrite bool_decide_eq_true_2 by (by left).
    + assert (match s' !! d with
              | Some _ => s'
              | None => <[d:=EDir]> s'
              end !! q = s' !! q) as ->.
      { destruct (s' !! d); [done|]. by rewrite lookup_insert_ne. }
      rewrite IH. destruct (s !! q); [done|].
      rewrite (bool_decide_ext (q ∈ d :: dirs) (q ∈ dirs)); [done|].
      rewrite elem_of_cons. split; [by intros [?|?]|by right].
Qed.

Lemma mkdirSync_recursive_ok s p s' :
  mkdirSync_recursive s p = Ok s' →
  (∀ q e, s !! q = Some e → s' !! q = Some e)
  ∧ (∀ q, ¬ q `prefix_of` p → s' !! q = s !! q)
  ∧ (p ≠ [] → s !! p = None → s' !! p = Some EDir).
Proof.
  unfold mkdirSync_recursive. destruct (forallb _ _); [|done].
  intros [= <-]. split_and!.
  - intros q e Hq. by rewrite mkdir_fold_lookup, Hq.
  - intros q Hq. rewrite mkdir_fold_lookup. destruct (s !! q); [done|].
    rewrite bool_decide_eq_false_2; [done|]. by intros ?%ancestors_prefix.
  - intros Hp Hnone. rewrite mkdir_fold_lookup, Hnone.
    rewrite bool_decide_eq_true_2; [done|]. by apply ancestors_self.
Qed.

Lemma write_files_lookup dir written s q :
  (∀ name, q ≠ dir ++ [name]) → write_files dir written s !! q = s !! q.
Proof.
  intros Hq. unfold write_files. revert s.
  induction written as [|[name data] written IH]; intros s; [done|].
  simpl. rewrite IH. by rewrite lookup_insert_ne.
Qed.

Lemma write_files_far E written s q :
  ¬ near_temp E q → write_files (TEMP_DIR E) written s !! q = s !! q.
Proof.
  intros Hq. apply write_files_lookup. intros name ->. apply Hq.
  right. by apply prefix_app_r.
Qed.


(** *** The steps of the script *)

#[local] Arguments SRC_DIR : simpl never.
#[local] Arguments FONT_SOURCE : simpl never.
#[local] Arguments TEMP_DIR : simpl never.
#[local] Arguments targetFile : simpl never.
#[local] Arguments generatedFile : simpl never.
#[local] Arguments Extraction.extractUnicodes : simpl never.
#[local] Arguments Discovery.getAllFiles : simpl never.
#[local] Arguments mkdirSync_recursive : simpl never.
#[local] Arguments write_files : simpl never.
#[local] Arguments existsSync : simpl never.

Ltac steps :=
  unfold mbind, M_bind, mret, M_ret, exists_, console_log, when, lift,
    process_exit, throw, fs_update, stat_size, try_catch;
  cbn.

Lemma bind_eq {A B} (m : M A) (f : A → M B) st :
  (m ≫= f) st
  = match m st with
    | (Returned a, st') => f a st'
    | (Exited code, st') => (Exited code, st')
    | (Uncaught e, st') => (Uncaught e, st')
    | (Unbounded, st') => (Unbounded, st')
    end.
Proof. done. Qed.

(** What holds when the script reaches [fontmin.run]. *)
Lemma toplevel_returned E s config st1 :
  toplevel E (State s [] []) = (Returned config, st1) →
  existsSync s (FONT_SOURCE E) = true
  ∧ (∃ d slintFiles,
       src_tree E = Some d
       ∧ Discovery.getAllFiles (SRC_DIR E) d [] = Some slintFiles
       ∧ Extraction.extractUnicodes (readFileSync E) slintFiles
         = Ok (text config))
  ∧ text config ≠ []
  ∧ config = EngineConfig (FONT_SOURCE E) (text config) false (TEMP_DIR E)
  ∧ engine_calls st1 = []
  ∧ existsSync (files st1) (TEMP_DIR E) = true
  ∧ (∀ q e, s !! q = Some e → files st1 !! q = Some e)
  ∧ (∀ q, ¬ near_temp E q → files st1 !! q = s !! q).
Proof.
  unfold toplevel, discover. steps.
  destruct (existsSync s (FONT_SOURCE E)) eqn:Hfont; [|done].
  cbn. 
  destruct (src_tree E) as [d|] eqn:Htree; [|done].
  destruct (Discovery.getAllFiles (SRC_DIR E) d []) as [slintFiles|] eqn:Hfiles;
    [|done].
  cbn.
  destruct (Extraction.extractUnicodes (readFileSync E) slintFiles)
    as [text| |] eqn:Htext; [|done|done].
  cbn. 
  case_bool_decide as Hempty; [done|]. cbn.
  destruct (existsSync s (TEMP_DIR E)) eqn:Htemp; cbn.
  - intros [= <- <-]. cbn. split_and!; try done.
    + by exists d, slintFiles.
    + by destruct text.
  - destruct (fails E MkdirTemp); [done|]. cbn.
    destruct (mkdirSync_recursive s (TEMP_DIR E)) as [s'| |] eqn:Hmk;
      [|done|done].
    intros [= <- <-]. cbn.
    apply mkdirSync_recursive_ok in Hmk as (Hkeep & Hfar & Hnew).
    split_and!; try done.
    + by exists d, slintFiles.
    + by destruct text.
    + unfold existsSync in *. rewrite Hnew; [done| |].
      * rewrite TEMP_DIR_eq. by destruct (base E).
      * by destruct (s !! TEMP_DIR E).
    + intros q Hq. apply Hfar. intros ?. apply Hq. by left.
Qed.

(** Before [fontmin.run] the engine is not called. *)
Lemma toplevel_calls E st o st' :
  toplevel E st = (o, st') → engine_calls st' = engine_calls st.
Proof.
  unfold toplevel, discover. steps.
  destruct (existsSync (files st) (FONT_SOURCE E)); cbn;
    [|by intros [= <- <-]].
  destruct (src_tree E) as [d|]; [|by intros [= <- <-]].
  destruct (Discovery.getAllFiles (SRC_DIR E) d []) as [slintFiles|];
    [|by intros [= <- <-]].
  cbn.
  destruct (Extraction.extractUnicodes (readFileSync E) slintFiles)
    as [text| |]; [|by intros [= <- <-]..].
  cbn.
  case_bool_decide; [by intros [= <- <-]|]. cbn.
  destruct (existsSync (files st) (TEMP_DIR E)); cbn; [by intros [= <- <-]|].
  destruct (fails E MkdirTemp); [by intros [= <- <-]|]. cbn.
  destruct (mkdirSync_recursive _ _); by intros [= <- <-].
Qed.

(** A run that reaches [fontmin.run] goes on with the callback, on the
    files as the engine leaves them. *)
Lemma run_reaches_callback E s config st1 :
  toplevel E (State s [] []) = (Returned config, st1) →
  run E s
  = match engine E config (files st1) with
    | EngineErr e =>
        callback E (Some e) (State (files st1) (console st1) [config])
    | EngineOk written =>
        callback E None
          (State (write_files (TEMP_DIR E) written (files st1))
                 (console st1) [config])
    end.
Proof.
  intros Htop. pose proof Htop as (_ & _ & _ & Hcfg & Hcalls & _)%toplevel_returned.
  unfold run, main. rewrite bind_eq, Htop, bind_eq. unfold fontmin_run.
  assert (Hdest : dest config = TEMP_DIR E) by (by rewrite Hcfg).
  rewrite Hcalls, Hdest. cbn [app].
  by destruct (engine E config (files st1)).
Qed.

Lemma run_stops_before_engine E s o st1 :
  toplevel E (State s [] []) = (o, st1) →
  (∀ config, o ≠ Returned config) →
  ∃ o', run E s = (o', st1) ∧ exit_code o' = exit_code o
        ∧ engine_calls st1 = [].
Proof.
  intros Htop Ho. unfold run, main. rewrite bind_eq, Htop.
  apply toplevel_calls in Htop. cbn in Htop.
  destruct o as [config|code|e|]; [by destruct (Ho config)|..]; eauto.
Qed.


(** *** The callback *)

Lemma callback_err E e st :
  callback E (Some e) st = (Exited 1, logged st [ErrSubsetting e]).
Proof. done. Qed.

Lemma callback_missing E st :
  existsSync (files st) (generatedFile E) = false →
  callback E None st = (Returned (), logged st [ErrExpectedNotFound]).
Proof. intros H. unfold callback. steps. by rewrite H. Qed.

Lemma callback_present E st :
  existsSync (files st) (generatedFile E) = true →
  callback E None st
  = match publish E st with
    | (Uncaught e, st') => (Returned (), logged st' [ErrMoving e])
    | r => r
    end.
Proof. intros H. unfold callback. steps. by rewrite H. Qed.

Lemma existsSync_true s p : existsSync s p = true ↔ is_Some (s !! p).
Proof.
  unfold existsSync.
  destruct (s !! p); split; [eauto|done|done|by intros [? ?]].
Qed.

Lemma existsSync_false s p : existsSync s p = false ↔ s !! p = None.
Proof. unfold existsSync. by destruct (s !! p). Qed.

(** The published font is deleted, then the copy is refused: nothing is
    published, and the temporary files stay. *)
Lemma publish_copy_refused E st :
  fails E UnlinkTarget = false →
  files st !! targetFile E ≠ Some EDir →
  fails E CopyGenerated = true →
  publish E st
  = (Uncaught (FsError "copyfile"),
     State (delete (targetFile E) (files st)) (console st) (engine_calls st)).
Proof.
  intros Hunlink Htarget Hcopy. unfold publish. steps.
  unfold existsSync, unlinkSync. rewrite Hunlink.
  destruct (files st !! targetFile E) as [[data|]|] eqn:Ht; cbn.
  - by rewrite Ht, Hcopy.
  - done.
  - rewrite Hcopy, delete_id by done. by destruct st.
Qed.

(** The store after the copy, whether a font was published before or
    not. *)
Lemma publish_copied E st data :
  fails E UnlinkTarget = false →
  fails E CopyGenerated = false →
  files st !! targetFile E ≠ Some EDir →
  files st !! generatedFile E = Some (EFile data) →
  publish E st
  = (fs_update E UnlinkGenerated "unlink"
               (λ s, unlinkSync s (generatedFile E));;
     fs_update E RmdirTemp "rmdir" (λ s, rmdirSync s (TEMP_DIR E));;
     originalSize ← stat_size E StatSource (FONT_SOURCE E);
     newSize ← stat_size E StatTarget (targetFile E);
     console_log (LogSizes originalSize newSize))
      (State (<[targetFile E := EFile data]> (files st))
             (console st ++ [LogGenerated]) (engine_calls st)).
Proof.
  intros Hunlink Hcopy Htarget Hgen. unfold publish. steps.
  unfold existsSync, unlinkSync, copyFileSync. rewrite Hunlink.
  destruct (files st !! targetFile E) as [[old|]|] eqn:Ht; cbn.
  - rewrite Ht, Hcopy. cbn.
    rewrite lookup_delete_ne by differ.
    rewrite Hgen, lookup_delete_eq. cbn. by rewrite insert_delete_eq.
  - done.
  - rewrite Hcopy. cbn. by rewrite Hgen, Ht.
Qed.

Lemma is_empty_dir_true s p :
  is_empty_dir s p = true ↔ ∀ q, p `prefix_of` q → q ≠ p → s !! q = None.
Proof.
  unfold is_empty_dir. rewrite bool_decide_eq_true, map_Forall_lookup.
  split.
  - intros H q Hp Hq. destruct (s !! q) as [e|] eqn:Hs; [|done].
    by destruct (H q e Hs).
  - intros H q e Hs [Hp Hq]. by rewrite H in Hs.
Qed.

(** The whole of [publish] when nothing fails. *)
Lemma publish_ok E st data source :
  (∀ site, fails E site = false) →
  files st !! generatedFile E = Some (EFile data) →
  files st !! targetFile E ≠ Some EDir →
  files st !! TEMP_DIR E = Some EDir →
  holds_only (files st) (TEMP_DIR E) (generatedFile E) →
  files st !! FONT_SOURCE E = Some source →
  ∃ size,
    statSync_size (files st) (FONT_SOURCE E) = Ok size
    ∧ publish E st
      = (Returned (),
         State (delete (TEMP_DIR E)
                  (delete (generatedFile E)
                     (<[targetFile E := EFile data]> (files st))))
               (console st ++ [LogGenerated; LogSizes size (length data)])
               (engine_calls st)).
Proof.
  intros Hfails Hgen Htarget Htemp Honly Hsource.
  assert (∃ size, statSync_size (files st) (FONT_SOURCE E) = Ok size)
    as [size Hsize].
  { unfold statSync_size. rewrite Hsource. destruct source; eauto. }
  exists size. split; [done|].
  rewrite (publish_copied E st data) by done. steps.
  rewrite !Hfails. unfold unlinkSync.
  rewrite lookup_insert_ne by differ.
  rewrite Hgen. cbn. unfold rmdirSync.
  rewrite lookup_delete_ne by differ.
  rewrite lookup_insert_ne by differ.
  rewrite Htemp.
  rewrite (proj2 (is_empty_dir_true _ _)); cycle 1.
  { intros q Hp Hq. destruct (decide (q = generatedFile E)) as [->|Hne].
    - apply lookup_delete_eq.
    - rewrite lookup_delete_ne by done.
      rewrite lookup_insert_ne; [by apply Honly|].
      intros <-. apply (target_far E). by right. }
  cbn. unfold statSync_size in *.
  rewrite lookup_delete_ne by differ.
  rewrite lookup_delete_ne by differ.
  rewrite lookup_insert_ne by differ.
  rewrite Hsource in *. 
  rewrite lookup_delete_ne by differ.
  rewrite lookup_delete_ne by differ.
  rewrite lookup_insert_eq.
  destruct source; simplify_eq; cbn; by rewrite <- app_assoc.
Qed.

(** A refusal in the cleanup leaves the temporary directory behind. *)
Lemma publish_cleanup_refused E st data :
  fails E UnlinkTarget = false →
  fails E CopyGenerated = false →
  files st !! targetFile E ≠ Some EDir →
  files st !! generatedFile E = Some (EFile data) →
  fails E UnlinkGenerated = true ∨ fails E RmdirTemp = true →
  ∃ e st', publish E st = (Uncaught e, st')
           ∧ files st' !! TEMP_DIR E = files st !! TEMP_DIR E
           ∧ files st' !! targetFile E = Some (EFile data).
Proof.
  intros Hunlink Hcopy Htarget Hgen Hclean.
  rewrite (publish_copied E st data) by done. steps.
  destruct (fails E UnlinkGenerated) eqn:Hug.
  - eexists _, _. split; [done|]. cbn.
    rewrite lookup_insert_ne by differ.
    by rewrite lookup_insert_eq.
  - destruct Hclean as [?|Hrm]; [done|]. unfold unlinkSync.
    rewrite lookup_insert_ne by differ.
    rewrite Hgen. cbn. rewrite Hrm.
    eexists _, _. split; [done|]. cbn.
    rewrite lookup_delete_ne by differ.
    rewrite lookup_insert_ne by differ.
    rewrite lookup_delete_ne by differ.
    by rewrite lookup_insert_eq.
Qed.

Lemma tame_bind {A B} (m : M A) (f : A → M B) :
  tame m → (∀ a, tame (f a)) → tame (m ≫= f).
Proof.
  intros Hm Hf st o st'. rewrite bind_eq.
  destruct (m st) as [o1 st1] eqn:H1. apply Hm in H1 as [[[a ->]|[e ->]] Hc].
  - intros [? ?]%Hf. split; [done|congruence].
  - intros [= <- <-]. eauto.
Qed.

Lemma tame_exists p : tame (exists_ p).
Proof. intros st o st' [= <- <-]. eauto. Qed.

Lemma tame_log l : tame (console_log l).
Proof. intros st o st' [= <- <-]. eauto. Qed.

Lemma tame_ret {A} (a : A) : tame (mret a).
Proof. intros st o st' [= <- <-]. eauto. Qed.

Lemma tame_fs_update E site syscall op :
  (∀ s, op s ≠ OutOfFuel) → tame (fs_update E site syscall op).
Proof.
  intros Hop st o st'. unfold fs_update. destruct (fails E site).
  - intros [= <- <-]. eauto.
  - pose proof (Hop (files st)).
    destruct (op (files st)); [|by intros [= <- <-]; eauto|done].
    intros [= <- <-]. eauto.
Qed.

Lemma tame_stat_size E site p : tame (stat_size E site p).
Proof.
  intros st o st'. unfold stat_size, lift, statSync_size.
  destruct (fails E site); [by intros [= <- <-]; eauto|].
  destruct (files st !! p) as [[?|]|]; intros [= <- <-]; eauto.
Qed.

(** [publish] ends normally or by an exception, which the callback
    catches. *)
Lemma publish_tame E : tame (publish E).
Proof.
  unfold publish.
  repeat first
    [ apply tame_bind; [|intros ?]
    | apply tame_exists | apply tame_log | apply tame_stat_size
    | apply tame_ret
    | apply tame_fs_update; intros s;
      unfold unlinkSync, copyFileSync, rmdirSync;
      repeat case_match; done
    | unfold when; case_match ].
Qed.

(** With the engine's output present, the callback returns whatever
    happens in [publish]. *)
Lemma callback_returns E st :
  existsSync (files st) (generatedFile E) = true →
  ∃ st', callback E None st = (Returned (), st')
         ∧ engine_calls st' = engine_calls st.
Proof.
  intros Hgen. rewrite callback_present by done.
  destruct (publish E st) as [o st'] eqn:Hp.
  apply publish_tame in Hp as [[[[] ->]|[e ->]] Hc]; eauto.
Qed.

(** The top level exits with code 0 or 1, throws, or reaches
    [fontmin.run]; the loops of the model are never cut short. *)
Lemma toplevel_outcome E st o st' :
  toplevel E st = (o, st') →
  match o with
  | Returned _ | Uncaught _ => True
  | Exited code => code = 0 ∨ code = 1
  | Unbounded => False
  end.
Proof.
  unfold toplevel, discover. steps.
  destruct (existsSync (files st) (FONT_SOURCE E)); cbn;
    [|intros [= <- <-]; by right].
  destruct (src_tree E) as [d|]; [|by intros [= <- <-]].
  destruct (Discovery.getAllFiles (SRC_DIR E) d []) as [slintFiles|];
    [|by intros [= <- <-]].
  cbn. pose proof (ExtractionFacts.extractUnicodes_bounded (readFileSync E) slintFiles).
  destruct (Extraction.extractUnicodes (readFileSync E) slintFiles)
    as [text| |]; [|by intros [= <- <-]|done].
  cbn. case_bool_decide; [intros [= <- <-]; by left|]. cbn.
  destruct (existsSync (files st) (TEMP_DIR E)); cbn; [by intros [= <- <-]|].
  destruct (fails E MkdirTemp); [by intros [= <- <-]|]. cbn.
  unfold mkdirSync_recursive. destruct (forallb _ _); by intros [= <- <-].
Qed.

(** Every run ends, with exit code 0 or 1. *)
Lemma run_exit_code E s :
  exit_code (run E s).1 = Some 0 ∨ exit_code (run E s).1 = Some 1.
Proof.
  destruct (toplevel E (State s [] [])) as [o st1] eqn:Htop.
  pose proof (toplevel_outcome _ _ _ _ Htop) as Ho.
  destruct o as [config|code|e|]; [| | |done].
  - rewrite (run_reaches_callback E s config st1 Htop).
    destruct (engine E config (files st1)) as [e|written].
    + rewrite callback_err. by right.
    + match goal with
      | |- context [callback E None ?st] =>
          destruct (existsSync (files st) (generatedFile E)) eqn:Hgen;
          [destruct (callback_returns E st Hgen) as (st' & -> & _)
          |rewrite (callback_missing E st Hgen)]
      end; by left.
  - destruct (run_stops_before_engine E s _ st1 Htop)
      as (o' & Hrun & Hcode & _); [done|].
    rewrite Hrun. cbn [fst]. rewrite Hcode. cbn.
    destruct Ho as [-> | ->]; eauto.
  - destruct (run_stops_before_engine E s _ st1 Htop)
      as (o' & Hrun & Hcode & _); [done|].
    rewrite Hrun. cbn [fst]. rewrite Hcode. by right.
Qed.

End ScriptFacts.

(** ** Code-point extraction: main theorems *)

Module ExtractionTheorems.
Import Extraction Spec ExtractionFacts.

(** C1.  Whatever the files and their texts, when [extractUnicodes]
    returns, the set it has built holds exactly the characters of the
    well-formed escapes [\u{hex}] of the files: each is the character
    whose code point is the value of [hex], and is in the set once,
    however often it is written; a malformed escape is never matched.
    The string returned is the set's elements joined.  Otherwise the call
    throws, because a file cannot be read or an escape lies beyond the
    last code point; it never loops. *)
Theorem extractUnicodes_exact readFileSync files :
  match collect readFileSync files with
  | Ok unicodes =>
      extractUnicodes readFileSync files = Ok (JS.join unicodes)
      ∧ NoDup unicodes
      ∧ NoDup (JS.codePointAt0 <$> unicodes)
      ∧ ∀ char, char ∈ unicodes ↔
          ∃ hex, escaped_in readFileSync files hex
                 ∧ JS.fromCodePoint (Some (JS.hexNumber hex)) = Ok char
  | Throw e =>
      extractUnicodes readFileSync files = Throw e
      ∧ ((e = FsError "readFileSync"
          ∧ ∃ file, file ∈ files ∧ readFileSync file = None)
         ∨ (e = RangeError
            ∧ ∃ hex, escaped_in readFileSync files hex
                     ∧ 0x10FFFF < JS.hexNumber hex))
  | OutOfFuel => False
  end
  ∧ ∀ file content i lastIndex m lastIndex',
      file ∈ files → readFileSync file = Some content →
      malformed_at content i →
      RegExp.exec content lastIndex = (Some m, lastIndex') →
      RegExp.index m ≠ i.
Proof.
  split.
  - destruct (collect readFileSync files) as [unicodes|e|] eqn:Hc.
    + pose proof Hc as (hexes & Hesc & Hadd)%collect_ok.
      apply add_all_ok in Hadd as (Hnd & Hin & _).
      specialize (Hnd (NoDup_nil_2)).
      assert (Hchar : ∀ char, char ∈ unicodes ↔
                ∃ hex, escaped_in readFileSync files hex
                       ∧ JS.fromCodePoint (Some (JS.hexNumber hex)) = Ok char).
      { intros char. rewrite Hin. split.
        - intros [?%elem_of_nil|(hex & Hhex & Hdec)]; [done|].
          apply (escapes_elem _ _ _ _ Hesc) in Hhex.
          pose proof Hhex as (f & c & i & _ & _ & Hi).
          rewrite (decode_escape _ _ _ Hi) in Hdec. eauto.
        - intros (hex & Hhex & Hdec). right. exists hex.
          pose proof Hhex as (f & c & i & _ & _ & Hi).
          rewrite (decode_escape _ _ _ Hi).
          split; [by apply (escapes_elem _ _ _ _ Hesc)|done]. }
      split_and!; [by unfold extractUnicodes; rewrite Hc|done| |done].
      apply NoDup_fmap_2_strong; [|done].
      intros c1 c2 (h1 & _ & H1)%Hchar (h2 & _ & H2)%Hchar Heq.
      apply JSFacts.codePointAt0_fromCodePoint in H1 as H1'.
      apply JSFacts.codePointAt0_fromCodePoint in H2 as H2'.
      assert (JS.hexNumber h1 = JS.hexNumber h2) as Hn by congruence.
      rewrite Hn in H1. congruence.
    + split; [by unfold extractUnicodes; rewrite Hc|].
      by apply collect_throw.
    + by apply collect_bounded in Hc.
  - intros file content i lastIndex m lastIndex' _ _ Hbad Hexec <-.
    apply RegExpFacts.exec_match in Hexec as [Hesc _].
    by apply (RegExpFacts.malformed_no_escape _ _ _ Hbad) in Hesc.
Qed.

Lemma extractUnicodes_exact_witness :
  extractUnicodes (Script.readFileSync Sample.env_icons) Sample.icon_files
  = Ok [0xE700; 0xD83D; 0xDE00; 0xE701].
Proof.
  pose proof (extractUnicodes_exact (Script.readFileSync Sample.env_icons)
                Sample.icon_files) as [H _].
  assert (Hc : collect (Script.readFileSync Sample.env_icons)
                 Sample.icon_files
               = Ok [[0xE700]; [0xD83D; 0xDE00]; [0xE701]])
    by (vm_compute; reflexivity).
  rewrite Hc in H. destruct H as [H _]. rewrite H. reflexivity.
Defined.

(** C10.  The string [extractUnicodes] returns is a function of the list
    of files and of their texts: two runs that are given the same list
    and read the same text from each file of the list return the same
    string, or fail alike. *)
Theorem extractUnicodes_deterministic read1 read2 files :
  (∀ file, file ∈ files → read1 file = read2 file) →
  extractUnicodes read1 files = extractUnicodes read2 files.
Proof.
  intros Hsame. unfold extractUnicodes, collect.
  by rewrite (forEach_file_ext read1 read2 files 0 [] Hsame).
Qed.

Lemma extractUnicodes_deterministic_witness :
  extractUnicodes (Script.readFileSync Sample.env_icons) Sample.icon_files
  = extractUnicodes (Script.readFileSync Sample.env_grown) Sample.icon_files.
Proof.
  apply (extractUnicodes_deterministic
           (Script.readFileSync Sample.env_icons)
           (Script.readFileSync Sample.env_grown) Sample.icon_files).
  intros file Hin. unfold Sample.icon_files in Hin.
  repeat (apply elem_of_cons in Hin as [->|Hin]; [vm_compute; reflexivity|]).
  by apply elem_of_nil in Hin.
Defined.

End ExtractionTheorems.

(** ** File discovery: main theorem *)

Module DiscoveryTheorems.
Import Discovery Spec DiscoveryFacts.

(** C2.  Whatever the tree under the root directory, [getAllFiles]
    returns, and what it returns are exactly the paths of the files under
    the root, at any depth, whose name ends with [.slint]: other files
    are left out, and a directory is walked but never returned, whatever
    its name.  No file is returned twice, the names in a directory being
    distinct. *)
Theorem getAllFiles_exact root entries :
  ∃ found,
    getAllFiles root (Dir entries) [] = Some found
    ∧ (∀ p, p ∈ found ↔ slint_file_under root (Dir entries) p)
    ∧ (unique_names (Dir entries) = true → NoDup found).
Proof.
  destruct (getAllFiles_spec (Dir entries) root [] entries eq_refl)
    as (found & Hfound & Hspec).
  exists found. split_and!; [done..|].
  intros Hu. by apply (getAllFiles_NoDup (Dir entries) root [] found).
Qed.

Lemma getAllFiles_exact_witness :
  getAllFiles (Script.SRC_DIR Sample.env_icons) Sample.ui_sources []
  = Some Sample.icon_files
  ∧ slint_file_under (Script.SRC_DIR Sample.env_icons) Sample.ui_sources
      [js "repo"; js "src"; js "ui"; js "home.slint"].
Proof.
  destruct (getAllFiles_exact (Script.SRC_DIR Sample.env_icons)
              [(js "app.slint",
                File (js "Text { text: \u{E700}; } \u{e700} \u{1F600} \u{E7G0}"));
               (js "ui",
                Dir [(js "home.slint", File (js "\u{E701}\u{E700}"));
                     (js "notes.txt", File (js "\u{E702}"));
                     (js "old.slint", Dir [])])])
    as (found & Hfound & Hspec & _).
  assert (found = Sample.icon_files) as ->.
  { vm_compute in Hfound. injection Hfound as <-. reflexivity. }
  split; [reflexivity|]. apply Hspec. unfold Sample.icon_files.
  apply elem_of_cons. right. apply elem_of_cons. by left.
Defined.

End DiscoveryTheorems.

(** ** The script: main theorems *)

Module ScriptTheorems.
Import Fs Script Spec ScriptFacts.

#[local] Arguments SRC_DIR : simpl never.
#[local] Arguments FONT_SOURCE : simpl never.
#[local] Arguments TEMP_DIR : simpl never.
#[local] Arguments targetFile : simpl never.
#[local] Arguments generatedFile : simpl never.
#[local] Arguments Extraction.extractUnicodes : simpl never.
#[local] Arguments Discovery.getAllFiles : simpl never.
#[local] Arguments existsSync : simpl never.

(** The run up to the extraction, when the source font is there and the
    sources are found. *)
Lemma run_extracted E s d slintFiles :
  existsSync s (FONT_SOURCE E) = true →
  src_tree E = Some d →
  Discovery.getAllFiles (SRC_DIR E) d [] = Some slintFiles →
  match Extraction.extractUnicodes (readFileSync E) slintFiles with
  | Ok [] =>
      run E s
      = (Exited 0,
         State s [LogScanning; LogFoundFiles (length slintFiles);
                  LogExtracting; LogFoundCharacters []; WarnNoIcons] [])
  | Ok _ => True
  | Throw e =>
      run E s
      = (Uncaught e,
         State s [LogScanning; LogFoundFiles (length slintFiles);
                  LogExtracting] [])
  | OutOfFuel => True
  end.
Proof.
  intros Hfont Htree Hfiles.
  destruct (Extraction.extractUnicodes (readFileSync E) slintFiles)
    as [[|c text]|e|] eqn:Htext; [| done | | done];
    unfold run, main, toplevel, discover; steps;
    rewrite Hfont, Htree, Hfiles; cbn; by rewrite Htext.
Qed.

Lemma discovered_readable E d slintFiles file :
  src_tree E = Some d → Spec.unique_names d = true →
  Discovery.getAllFiles (SRC_DIR E) d [] = Some slintFiles →
  file ∈ slintFiles → is_Some (readFileSync E file).
Proof.
  intros Htree Hu Hfiles Hin. unfold readFileSync. rewrite Htree.
  by eapply DiscoveryFacts.getAllFiles_readable.
Qed.

(** C5.  Without the source font at its path the run writes the error
    and exits with code 1 at once: the sources are not scanned, the engine
    is not called, and no file is created or changed. *)
Theorem run_without_source_font E s :
  existsSync s (FONT_SOURCE E) = false →
  exit_code (run E s).1 = Some 1
  ∧ files (run E s).2 = s
  ∧ console (run E s).2 = [ErrSourceFontNotFound]
  ∧ engine_calls (run E s).2 = [].
Proof.
  intros Hfont.
  assert (run E s = (Exited 1, State s [ErrSourceFontNotFound] [])) as ->; [|done].
  unfold run, main, toplevel. steps. by rewrite Hfont.
Qed.

Lemma run_without_source_font_witness :
  exit_code (run Sample.env_icons Sample.fontless).1 = Some 1
  ∧ files (run Sample.env_icons Sample.fontless).2 = Sample.fontless
  ∧ console (run Sample.env_icons Sample.fontless).2 = [ErrSourceFontNotFound]
  ∧ engine_calls (run Sample.env_icons Sample.fontless).2 = [].
Proof.
  apply (run_without_source_font Sample.env_icons Sample.fontless).
  vm_compute. reflexivity.
Defined.

(** C3.  When the source font is there and none of the [.slint] files
    found holds an escape, the extracted string is empty and the run
    warns and exits with code 0 before the subsetting step: the engine is
    not called and no file, the published font included, is created or
    changed. *)
Theorem run_without_icons E s d slintFiles :
  existsSync s (FONT_SOURCE E) = true →
  src_tree E = Some d → unique_names d = true →
  Discovery.getAllFiles (SRC_DIR E) d [] = Some slintFiles →
  (∀ hex, ¬ escaped_in (readFileSync E) slintFiles hex) →
  Extraction.extractUnicodes (readFileSync E) slintFiles = Ok []
  ∧ exit_code (run E s).1 = Some 0
  ∧ files (run E s).2 = s
  ∧ last (console (run E s).2) = Some WarnNoIcons
  ∧ engine_calls (run E s).2 = [].
Proof.
  intros Hfont Htree Hu Hfiles Hnone.
  assert (Htext : Extraction.extractUnicodes (readFileSync E) slintFiles
                  = Ok []).
  { apply ExtractionFacts.extract_nothing; [|done].
    intros file Hin. by eapply discovered_readable. }
  pose proof (run_extracted E s d slintFiles Hfont Htree Hfiles) as Hrun.
  rewrite Htext in Hrun. by rewrite Hrun.
Qed.

Lemma run_without_icons_witness :
  Extraction.extractUnicodes (readFileSync Sample.env_plain)
    [[js "repo"; js "src"; js "app.slint"]] = Ok []
  ∧ exit_code (run Sample.env_plain Sample.published).1 = Some 0
  ∧ files (run Sample.env_plain Sample.published).2 = Sample.published
  ∧ last (console (run Sample.env_plain Sample.published).2)
    = Some WarnNoIcons
  ∧ engine_calls (run Sample.env_plain Sample.published).2 = [].
Proof.
  apply (run_without_icons Sample.env_plain Sample.published
           Sample.plain_sources [[js "repo"; js "src"; js "app.slint"]]).
  - vm_compute. reflexivity.
  - reflexivity.
  - vm_compute. reflexivity.
  - vm_compute. reflexivity.
  - intros hex Hesc.
    apply (ExtractionFacts.escapes_elem _ _ [] hex) in Hesc.
    + by apply elem_of_nil in Hesc.
    + vm_compute. reflexivity.
Defined.

(** C8.  Extraction is partial: when a file found holds a well-formed
    escape whose value is above 0x10FFFF, as [\u{110000}],
    [String.fromCodePoint] throws a RangeError, [extractUnicodes] does
    not return, and the run ends on the uncaught exception, exit code 1,
    before the engine is called or any file is changed. *)
Theorem run_escape_out_of_range E s d slintFiles hex :
  existsSync s (FONT_SOURCE E) = true →
  src_tree E = Some d → unique_names d = true →
  Discovery.getAllFiles (SRC_DIR E) d [] = Some slintFiles →
  escaped_in (readFileSync E) slintFiles hex →
  0x10FFFF < JS.hexNumber hex →
  JS.fromCodePoint (JS.parseInt16 hex) = Throw RangeError
  ∧ Extraction.extractUnicodes (readFileSync E) slintFiles = Throw RangeError
  ∧ (run E s).1 = Uncaught RangeError
  ∧ exit_code (run E s).1 = Some 1
  ∧ files (run E s).2 = s
  ∧ engine_calls (run E s).2 = [].
Proof.
  intros Hfont Htree Hu Hfiles Hesc Hbig.
  assert (Htext : Extraction.extractUnicodes (readFileSync E) slintFiles
                  = Throw RangeError).
  { apply (ExtractionFacts.extract_RangeError _ _ hex); [|done|done].
    intros file Hin. by eapply discovered_readable. }
  pose proof (run_extracted E s d slintFiles Hfont Htree Hfiles) as Hrun.
  rewrite Htext in Hrun. rewrite Hrun. split_and!; try done.
  destruct Hesc as (file & content & i & _ & _ & Hi).
  pose proof (ExtractionFacts.decode_escape _ _ _ Hi) as Hdec.
  unfold decode in Hdec. rewrite Hdec.
  by apply JSFacts.fromCodePoint_throw_iff.
Qed.

Lemma run_escape_out_of_range_witness :
  JS.fromCodePoint (JS.parseInt16 (js "110000")) = Throw RangeError
  ∧ Extraction.extractUnicodes (readFileSync Sample.env_bad)
      [[js "repo"; js "src"; js "app.slint"]] = Throw RangeError
  ∧ (run Sample.env_bad Sample.published).1 = Uncaught RangeError
  ∧ exit_code (run Sample.env_bad Sample.published).1 = Some 1
  ∧ files (run Sample.env_bad Sample.published).2 = Sample.published
  ∧ engine_calls (run Sample.env_bad Sample.published).2 = [].
Proof.
  apply (run_escape_out_of_range Sample.env_bad Sample.published
           Sample.bad_sources [[js "repo"; js "src"; js "app.slint"]]
           (js "110000")).
  - vm_compute. reflexivity.
  - reflexivity.
  - vm_compute. reflexivity.
  - vm_compute. reflexivity.
  - exists [js "repo"; js "src"; js "app.slint"], (js "\u{E700} \u{110000}"), 9%nat.
    split_and!.
    + apply elem_of_cons. by left.
    + vm_compute. reflexivity.
    + exists (js "\u{E700} "), []. split_and!.
      * reflexivity.
      * reflexivity.
      * discriminate.
      * repeat constructor.
  - vm_compute. reflexivity.
Defined.

Lemma callback_calls E err st o st' :
  callback E err st = (o, st') → engine_calls st' = engine_calls st.
Proof.
  destruct err as [e|].
  - rewrite callback_err. by intros [= <- <-].
  - destruct (existsSync (files st) (generatedFile E)) eqn:Hgen.
    + destruct (callback_returns E st Hgen) as (st'' & -> & Hc).
      by intros [= <- <-].
    + rewrite callback_missing by done. by intros [= <- <-].
Qed.

(** C9.  In every run that reaches the subsetting step, the engine is
    applied once, to the configuration with the source font as source,
    hinting disabled, the temporary directory as destination, and as text
    exactly the elements of the extracted set joined, and to the files as
    the script has left them; what the engine answers on that
    configuration decides how the run goes on, and what it writes goes
    into the temporary directory. *)
Theorem engine_called_with_glyphs E s config st1 :
  toplevel E (State s [] []) = (Returned config, st1) →
  (∃ d slintFiles unicodes,
     src_tree E = Some d
     ∧ Discovery.getAllFiles (SRC_DIR E) d [] = Some slintFiles
     ∧ Extraction.collect (readFileSync E) slintFiles = Ok unicodes
     ∧ config = EngineConfig (FONT_SOURCE E) (JS.join unicodes) false
                             (TEMP_DIR E))
  ∧ hinting config = false
  ∧ src config = FONT_SOURCE E
  ∧ dest config = TEMP_DIR E
  ∧ run E s
    = match engine E config (files st1) with
      | EngineErr e =>
          callback E (Some e) (State (files st1) (console st1) [config])
      | EngineOk written =>
          callback E None
            (State (write_files (TEMP_DIR E) written (files st1))
                   (console st1) [config])
      end
  ∧ (∀ written q,
       engine E config (files st1) = EngineOk written →
       (∀ name, q ≠ TEMP_DIR E ++ [name]) →
       write_files (TEMP_DIR E) written (files st1) !! q = files st1 !! q)
  ∧ engine_calls (run E s).2 = [config].
Proof.
  intros Htop.
  pose proof Htop as (_ & (d & slintFiles & Htree & Hfiles & Htext)
                      & _ & Hcfg & _)%toplevel_returned.
  split_and!.
  - unfold Extraction.extractUnicodes in Htext.
    destruct (Extraction.collect (readFileSync E) slintFiles)
      as [unicodes| |] eqn:Hc; [|done|done].
    exists d, slintFiles, unicodes. split_and!; [done..|].
    rewrite Hcfg. f_equal. congruence.
  - by rewrite Hcfg.
  - by rewrite Hcfg.
  - by rewrite Hcfg.
  - by apply run_reaches_callback.
  - intros written q _ Hq. by apply write_files_lookup.
  - rewrite (run_reaches_callback E s config st1 Htop).
    destruct (engine E config (files st1)) as [e|written];
      match goal with
      | |- engine_calls (callback ?E ?err ?st).2 = _ =>
          destruct (callback E err st) as [o' st'] eqn:Hcb;
          by apply callback_calls in Hcb
      end.
Qed.

Lemma engine_called_with_glyphs_witness :
  run Sample.env_icons Sample.published
  = callback Sample.env_icons None
      (State (write_files (TEMP_DIR Sample.env_icons)
                [(js "segoeicons.ttf", [0; 1; 0])]
                (files (toplevel Sample.env_icons
                          (State Sample.published [] [])).2))
             (console (toplevel Sample.env_icons
                         (State Sample.published [] [])).2)
             [EngineConfig (FONT_SOURCE Sample.env_icons)
                [0xE700; 0xD83D; 0xDE00; 0xE701] false
                (TEMP_DIR Sample.env_icons)])
  ∧ engine_calls (run Sample.env_icons Sample.published).2
    = [EngineConfig (FONT_SOURCE Sample.env_icons)
         [0xE700; 0xD83D; 0xDE00; 0xE701] false (TEMP_DIR Sample.env_icons)].
Proof.
  destruct (engine_called_with_glyphs Sample.env_icons Sample.published
              (EngineConfig (FONT_SOURCE Sample.env_icons)
                 [0xE700; 0xD83D; 0xDE00; 0xE701] false
                 (TEMP_DIR Sample.env_icons))
              (toplevel Sample.env_icons (State Sample.published [] [])).2)
    as (_ & _ & _ & _ & Hrun & _ & Hcalls).
  - vm_compute. reflexivity.
  - split; [exact Hrun | exact Hcalls].
Defined.

(** The run when the engine reports success and its output is not where
    it is expected. *)
Lemma run_missing_output E s config st1 written :
  toplevel E (State s [] []) = (Returned config, st1) →
  engine E config (files st1) = EngineOk written →
  existsSync (write_files (TEMP_DIR E) written (files st1))
    (generatedFile E) = false →
  (run E s).1 = Returned ()
  ∧ last (console (run E s).2) = Some ErrExpectedNotFound
  ∧ files (run E s).2 !! targetFile E = s !! targetFile E.
Proof.
  intros Htop Hengine Hmissing.
  rewrite (run_reaches_callback E s config st1 Htop), Hengine.
  rewrite callback_missing by done. cbn. split_and!; [done| |].
  - by rewrite last_snoc.
  - rewrite write_files_far by apply target_far.
    apply toplevel_returned in Htop as (_ & _ & _ & _ & _ & _ & _ & Hfar).
    apply Hfar, target_far.
Qed.

(** C4.  A run in which the engine reports success without writing the
    file expected in the temporary directory: the error is written on the
    console and the published font is left as it was, but the process
    ends with exit code 0, not 1. *)
Theorem missing_output_exit_code :
  engine Sample.env_silent
    (EngineConfig (FONT_SOURCE Sample.env_silent)
       [0xE700; 0xD83D; 0xDE00; 0xE701] false (TEMP_DIR Sample.env_silent))
    (files (toplevel Sample.env_silent (State Sample.published [] [])).2)
  = EngineOk []
  ∧ (run Sample.env_silent Sample.published).1 = Returned ()
  ∧ exit_code (run Sample.env_silent Sample.published).1 = Some 0
  ∧ last (console (run Sample.env_silent Sample.published).2)
    = Some ErrExpectedNotFound
  ∧ files (run Sample.env_silent Sample.published).2
      !! targetFile Sample.env_silent
    = Some (EFile Sample.old_icons).
Proof. vm_compute. repeat split. Qed.

Lemma temp_exists_at_callback E s config st1 written :
  toplevel E (State s [] []) = (Returned config, st1) →
  is_Some (write_files (TEMP_DIR E) written (files st1) !! TEMP_DIR E).
Proof.
  intros (_ & _ & _ & _ & _ & Htemp & _)%toplevel_returned.
  rewrite write_files_lookup; [by apply existsSync_true|].
  intros name Heq. apply (f_equal length) in Heq.
  rewrite length_app in Heq. simpl in Heq. lia.
Qed.

Lemma untouched_before_callback E s config st1 written q :
  toplevel E (State s [] []) = (Returned config, st1) →
  ¬ near_temp E q →
  write_files (TEMP_DIR E) written (files st1) !! q = s !! q.
Proof.
  intros (_ & _ & _ & _ & _ & _ & _ & Hfar)%toplevel_returned Hq.
  rewrite write_files_far by done. by apply Hfar.
Qed.

(** C6, as the code has it.  In a run with a glyph set that is not empty
    and the source font a file, in which the engine succeeds and writes
    its output file into the temporary directory, no fs call is refused,
    the path of the published font is not a directory, and the temporary
    directory holds nothing but the engine's output: the published font
    exists after the run with exactly the bytes of the engine's output,
    whatever was published before, so that it is no larger than the
    source font when the engine's output is not; the temporary file and
    directory are gone, and the exit code is 0. *)
Theorem run_publishes E s config st1 written data font :
  toplevel E (State s [] []) = (Returned config, st1) →
  engine E config (files st1) = EngineOk written →
  write_files (TEMP_DIR E) written (files st1) !! generatedFile E
  = Some (EFile data) →
  (∀ site, fails E site = false) →
  s !! targetFile E ≠ Some EDir →
  temp_holds_output_only E (write_files (TEMP_DIR E) written (files st1)) →
  s !! FONT_SOURCE E = Some (EFile font) →
  exit_code (run E s).1 = Some 0
  ∧ files (run E s).2 !! targetFile E = Some (EFile data)
  ∧ statSync_size (files (run E s).2) (targetFile E) = Ok (length data)
  ∧ statSync_size (files (run E s).2) (FONT_SOURCE E) = Ok (length font)
  ∧ ((length data ≤ length font)%nat →
     ∃ size original,
       statSync_size (files (run E s).2) (targetFile E) = Ok size
       ∧ statSync_size s (FONT_SOURCE E) = Ok original
       ∧ (size ≤ original)%nat)
  ∧ files (run E s).2 !! generatedFile E = None
  ∧ files (run E s).2 !! TEMP_DIR E = None
  ∧ last (console (run E s).2) = Some (LogSizes (length font) (length data)).
Proof.
  intros Htop Hengine Hgen Hfails Htarget [Htemp Hempty] Hfont.
  set (s2 := write_files (TEMP_DIR E) written (files st1)) in *.
  assert (Hfont2 : s2 !! FONT_SOURCE E = Some (EFile font)).
  { unfold s2. rewrite (untouched_before_callback E s config st1) by
      (done || apply source_far). done. }
  assert (Htarget2 : s2 !! targetFile E ≠ Some EDir).
  { unfold s2. rewrite (untouched_before_callback E s config st1) by
      (done || apply target_far). done. }
  assert (Honly : holds_only s2 (TEMP_DIR E) (generatedFile E)).
  { intros q Hp Hq Hne.
    rewrite <- (lookup_delete_ne s2 (generatedFile E) q) by done.
    by apply (proj1 (is_empty_dir_true _ _) Hempty). }
  rewrite (run_reaches_callback E s config st1 Htop), Hengine.
  fold s2. rewrite callback_present
    by (apply existsSync_true; cbn [files]; by rewrite Hgen).
  destruct (publish_ok E (State s2 (console st1) [config]) data (EFile font))
    as (size & Hsize & ->); try done.
  cbn [fst snd files console] in *. unfold statSync_size in *.
  rewrite Hfont2 in Hsize. injection Hsize as <-.
  assert (Hpub : delete (TEMP_DIR E)
                   (delete (generatedFile E)
                      (<[targetFile E := EFile data]> s2)) !! targetFile E
                 = Some (EFile data)).
  { rewrite lookup_delete_ne by differ. rewrite lookup_delete_ne by differ.
    apply lookup_insert_eq. }
  assert (Hsrc : delete (TEMP_DIR E)
                   (delete (generatedFile E)
                      (<[targetFile E := EFile data]> s2)) !! FONT_SOURCE E
                 = Some (EFile font)).
  { rewrite lookup_delete_ne by differ. rewrite lookup_delete_ne by differ.
    by rewrite lookup_insert_ne by differ. }
  rewrite Hpub, Hsrc, Hfont. split_and!; try done.
  - intros Hle. by exists (length data), (length font).
  - rewrite lookup_delete_ne by differ. apply lookup_delete_eq.
  - apply lookup_delete_eq.
  - by rewrite last_app.
Qed.

Lemma run_publishes_witness :
  exit_code (run Sample.env_icons Sample.published).1 = Some 0
  ∧ files (run Sample.env_icons Sample.published).2
      !! targetFile Sample.env_icons = Some (EFile [0; 1; 0])
  ∧ files (run Sample.env_icons Sample.published).2
      !! generatedFile Sample.env_icons = None
  ∧ files (run Sample.env_icons Sample.published).2
      !! TEMP_DIR Sample.env_icons = None.
Proof.
  destruct (run_publishes Sample.env_icons Sample.published
              (EngineConfig (FONT_SOURCE Sample.env_icons)
                 [0xE700; 0xD83D; 0xDE00; 0xE701] false
                 (TEMP_DIR Sample.env_icons))
              (toplevel Sample.env_icons (State Sample.published [] [])).2
              [(js "segoeicons.ttf", [0; 1; 0])] [0; 1; 0]
              Sample.source_font)
    as (Hcode & Htarget & _ & _ & _ & Hgen & Htemp & _).
  - vm_compute. reflexivity.
  - reflexivity.
  - vm_compute. reflexivity.
  - intros site. reflexivity.
  - vm_compute. discriminate.
  - split; vm_compute; reflexivity.
  - vm_compute. reflexivity.
  - by split_and!.
Defined.

(** C6, as stated, fails: with an engine whose output is larger than the
    source font the published font is larger too; with a file left in
    the temporary directory by an earlier run the directory stays; with
    the copy refused nothing is published. *)
Lemma publishes_smaller_and_cleans_fails :
  ¬ publishes_smaller_and_cleans Sample.env_inflating Sample.published
  ∧ ¬ publishes_smaller_and_cleans Sample.env_icons Sample.stale
  ∧ ¬ publishes_smaller_and_cleans Sample.env_copy_refused Sample.published.
Proof.
  split_and!; intros H.
  - destruct (H (EngineConfig (FONT_SOURCE Sample.env_inflating)
                   [0xE700; 0xD83D; 0xDE00; 0xE701] false
                   (TEMP_DIR Sample.env_inflating))
                (toplevel Sample.env_inflating
                   (State Sample.published [] [])).2
                [(js "segoeicons.ttf", [0; 1; 0; 0; 0; 0])])
      as (data & size & Ht & Hs & Hle & _).
    + vm_compute. reflexivity.
    + reflexivity.
    + vm_compute. reflexivity.
    + vm_compute in Ht, Hs. injection Ht as <-. injection Hs as <-.
      simpl in Hle. lia.
  - destruct (H (EngineConfig (FONT_SOURCE Sample.env_icons)
                   [0xE700; 0xD83D; 0xDE00; 0xE701] false
                   (TEMP_DIR Sample.env_icons))
                (toplevel Sample.env_icons (State Sample.stale [] [])).2
                [(js "segoeicons.ttf", [0; 1; 0])])
      as (data & size & _ & _ & _ & _ & Htemp).
    + vm_compute. reflexivity.
    + reflexivity.
    + vm_compute. reflexivity.
    + vm_compute in Htemp. discriminate.
  - destruct (H (EngineConfig (FONT_SOURCE Sample.env_copy_refused)
                   [0xE700; 0xD83D; 0xDE00; 0xE701] false
                   (TEMP_DIR Sample.env_copy_refused))
                (toplevel Sample.env_copy_refused
                   (State Sample.published [] [])).2
                [(js "segoeicons.ttf", [0; 1; 0])])
      as (data & size & Ht & _).
    + vm_compute. reflexivity.
    + reflexivity.
    + vm_compute. reflexivity.
    + vm_compute in Ht. discriminate.
Qed.

(** C7.  Once the engine has succeeded and its output file is there,
    whatever the copy or the cleanup throws is caught by the callback and
    written on the console, and the process still ends with exit code 0.
    The font published before is deleted before the copy: when the copy
    is refused no published font is left, and the temporary file and
    directory stay; when the cleanup is refused the temporary directory
    stays. *)
Theorem publish_failure_is_swallowed E s config st1 written :
  toplevel E (State s [] []) = (Returned config, st1) →
  engine E config (files st1) = EngineOk written →
  existsSync (write_files (TEMP_DIR E) written (files st1))
    (generatedFile E) = true →
  (∀ e st3,
     publish E (State (write_files (TEMP_DIR E) written (files st1))
                      (console st1) [config]) = (Uncaught e, st3) →
     run E s = (Returned (), logged st3 [ErrMoving e])
     ∧ exit_code (run E s).1 = Some 0)
  ∧ (fails E UnlinkTarget = false →
     s !! targetFile E ≠ Some EDir →
     fails E CopyGenerated = true →
     exit_code (run E s).1 = Some 0
     ∧ last (console (run E s).2) = Some (ErrMoving (FsError "copyfile"))
     ∧ files (run E s).2 !! targetFile E = None
     ∧ is_Some (files (run E s).2 !! generatedFile E)
     ∧ is_Some (files (run E s).2 !! TEMP_DIR E))
  ∧ (fails E UnlinkTarget = false →
     s !! targetFile E ≠ Some EDir →
     fails E CopyGenerated = false →
     (∃ data, write_files (TEMP_DIR E) written (files st1)
                !! generatedFile E = Some (EFile data)) →
     fails E UnlinkGenerated = true ∨ fails E RmdirTemp = true →
     exit_code (run E s).1 = Some 0
     ∧ (∃ e, last (console (run E s).2) = Some (ErrMoving e))
     ∧ is_Some (files (run E s).2 !! TEMP_DIR E)).
Proof.
  intros Htop Hengine Hgen.
  set (s2 := write_files (TEMP_DIR E) written (files st1)) in *.
  pose proof (temp_exists_at_callback E s config st1 written Htop) as Htemp.
  fold s2 in Htemp.
  assert (Hrun : run E s = callback E None (State s2 (console st1) [config])).
  { by rewrite (run_reaches_callback E s config st1 Htop), Hengine. }
  assert (Htarget2 : s !! targetFile E ≠ Some EDir →
                     s2 !! targetFile E ≠ Some EDir).
  { unfold s2. by rewrite (untouched_before_callback E s config st1) by
      (done || apply target_far). }
  rewrite Hrun, callback_present by done. split_and!.
  - intros e st3 ->. done.
  - intros Hunlink Htarget Hcopy.
    rewrite (publish_copy_refused E (State s2 (console st1) [config]))
      by auto.
    cbn. split_and!; [done|by rewrite last_snoc|apply lookup_delete_eq|..].
    + rewrite lookup_delete_ne by differ. by apply existsSync_true.
    + by rewrite lookup_delete_ne by differ.
  - intros Hunlink Htarget Hcopy [data Hdata] Hclean.
    destruct (publish_cleanup_refused E (State s2 (console st1) [config])
                data) as (e & st3 & -> & Hkeep & _); auto.
    cbn. split_and!; [done| |by rewrite Hkeep].
    exists e. by rewrite last_snoc.
Qed.

Lemma publish_failure_is_swallowed_witness :
  exit_code (run Sample.env_copy_refused Sample.published).1 = Some 0
  ∧ last (console (run Sample.env_copy_refused Sample.published).2)
    = Some (ErrMoving (FsError "copyfile"))
  ∧ files (run Sample.env_copy_refused Sample.published).2
      !! targetFile Sample.env_copy_refused = None
  ∧ is_Some (files (run Sample.env_copy_refused Sample.published).2
               !! generatedFile Sample.env_copy_refused)
  ∧ is_Some (files (run Sample.env_copy_refused Sample.published).2
               !! TEMP_DIR Sample.env_copy_refused).
Proof.
  destruct (publish_failure_is_swallowed Sample.env_copy_refused
              Sample.published
              (EngineConfig (FONT_SOURCE Sample.env_copy_refused)
                 [0xE700; 0xD83D; 0xDE00; 0xE701] false
                 (TEMP_DIR Sample.env_copy_refused))
              (toplevel Sample.env_copy_refused
                 (State Sample.published [] [])).2
              [(js "segoeicons.ttf", [0; 1; 0])])
    as (_ & Hcopy & _).
  - vm_compute. reflexivity.
  - reflexivity.
  - vm_compute. reflexivity.
  - apply Hcopy.
    + reflexivity.
    + vm_compute. discriminate.
    + reflexivity.
Defined.

End ScriptTheorems.

(** ** The listing of line 63 *)

Module ReportFacts.
Import Report Spec Notions.

Lemma hexNumber_snoc ds d :
  JS.hexNumber (ds ++ [d]) = 16 * JS.hexNumber ds + JS.hexValue d.
Proof. unfold JS.hexNumber. by rewrite fold_left_app. Qed.

Ltac in_range :=
  symmetry;
  first [ apply andb_true_iff; split; apply N.leb_le; lia
        | apply andb_false_iff; left; apply N.leb_gt; lia
        | apply andb_false_iff; right; apply N.leb_gt; lia ].

Lemma hexDigit_lower d : d < 16 → lower_hex (hexDigit d).
Proof.
  unfold hexDigit, lower_hex. intros Hd.
  destruct (d <? 10) eqn:H10; [apply N.ltb_lt in H10|apply N.ltb_ge in H10]; lia.
Qed.

Lemma hexValue_hexDigit d : d < 16 → JS.hexValue (hexDigit d) = d.
Proof.
  unfold hexDigit, JS.hexValue. intros Hd.
  destruct (d <? 10) eqn:H10; [apply N.ltb_lt in H10|apply N.ltb_ge in H10].
  - replace ((48 <=? 48 + d) && (48 + d <=? 57)) with true; [cbv iota; lia|].
    symmetry. apply andb_true_iff. split; apply N.leb_le; lia.
  - replace ((48 <=? 87 + d) && (87 + d <=? 57)) with false.
    + replace ((97 <=? 87 + d) && (87 + d <=? 102)) with true;
        [cbv iota; lia|].
      symmetry. apply andb_true_iff. split; apply N.leb_le; lia.
    + symmetry. apply andb_false_iff. right. apply N.leb_gt. lia.
Qed.

Lemma toDigits_spec fuel n acc :
  fuel ≠ 0%nat → n < 16 ^ N.of_nat fuel →
  ∃ ds, toDigits fuel n acc = ds ++ acc
        ∧ ds ≠ [] ∧ Forall lower_hex ds ∧ JS.hexNumber ds = n.
Proof.
  revert n acc. induction fuel as [|fuel IH]; intros n acc Hfuel Hn; [done|].
  clear Hfuel.
  cbn [toDigits].
  assert (Hmod : n mod 16 < 16) by (apply N.mod_lt; lia).
  pose proof (N.div_mod n 16 ltac:(lia)) as Hdm.
  destruct (n / 16 =? 0) eqn:Hq.
  - apply N.eqb_eq in Hq. exists [hexDigit (n mod 16)].
    split_and!; [done|done|constructor; [by apply hexDigit_lower|constructor]|].
    unfold JS.hexNumber. simpl. rewrite hexValue_hexDigit by done. lia.
  - apply N.eqb_neq in Hq.
    destruct (IH (n / 16) (hexDigit (n mod 16) :: acc)) as (ds & -> & _ & Hl & Hv).
    { intros ->. simpl in Hn. apply Hq, N.div_small. lia. }
    { rewrite Nat2N.inj_succ, N.pow_succ_r' in Hn.
      apply N.Div0.div_lt_upper_bound. lia. }
    exists (ds ++ [hexDigit (n mod 16)]). split_and!.
    + by rewrite <- app_assoc.
    + by destruct ds.
    + apply Forall_app. split; [done|].
      constructor; [by apply hexDigit_lower|constructor].
    + rewrite hexNumber_snoc, Hv, hexValue_hexDigit by done. lia.
Qed.

Lemma toString16_spec n :
  toString16 n ≠ [] ∧ Forall lower_hex (toString16 n)
  ∧ JS.hexNumber (toString16 n) = n.
Proof.
  unfold toString16.
  destruct (toDigits_spec (S (N.to_nat (N.log2 n))) n []) as (ds & -> & ? & ? & ?).
  - done.
  - rewrite Nat2N.inj_succ, N2Nat.id.
    destruct (decide (n = 0)) as [->|Hn]; [done|].
    pose proof (N.log2_spec n ltac:(lia)) as [_ Hlt].
    eapply N.lt_le_trans; [done|]. apply N.pow_le_mono_l. lia.
  - by rewrite app_nil_r.
Qed.

Lemma lower_hex_is_hex ds : Forall lower_hex ds → is_hex ds.
Proof.
  intros Hds. eapply Forall_impl; [done|].
  intros c [Hc|Hc]; unfold JS.isHexDigit.
  - replace ((48 <=? c) && (c <=? 57)) with true by in_range. done.
  - replace ((97 <=? c) && (c <=? 102)) with true by in_range.
    by rewrite orb_true_r.
Qed.

Lemma isHexDigit_cases c :
  JS.isHexDigit c = true → (48 ≤ c ≤ 57) ∨ (97 ≤ c ≤ 102) ∨ (65 ≤ c ≤ 70).
Proof.
  unfold JS.isHexDigit. rewrite !orb_true_iff, !andb_true_iff, !N.leb_le.
  tauto.
Qed.

(** Upper case changes neither the nature of hex digits nor their value. *)
Lemma toUpperCase_hex ds :
  is_hex ds →
  is_hex (toUpperCase ds) ∧ JS.hexNumber (toUpperCase ds) = JS.hexNumber ds.
Proof.
  intros Hds. unfold JS.hexNumber. generalize 0 as acc.
  induction Hds as [|c ds Hc _ IH]; intros acc; [by split; [constructor|]|].
  assert (Hup : JS.isHexDigit (if (97 <=? c) && (c <=? 122) then c - 32 else c)
                = true
                ∧ JS.hexValue (if (97 <=? c) && (c <=? 122) then c - 32 else c)
                  = JS.hexValue c).
  { apply isHexDigit_cases in Hc as Hcases.
    unfold JS.isHexDigit, JS.hexValue. destruct Hcases as [Hr|[Hr|Hr]].
    - replace ((97 <=? c) && (c <=? 122)) with false by in_range.
      replace ((48 <=? c) && (c <=? 57)) with true by in_range.
      done.
    - replace ((97 <=? c) && (c <=? 122)) with true by in_range.
      replace ((48 <=? c - 32) && (c - 32 <=? 57)) with false by in_range.
      replace ((97 <=? c - 32) && (c - 32 <=? 102)) with false by in_range.
      replace ((65 <=? c - 32) && (c - 32 <=? 70)) with true by in_range.
      replace ((48 <=? c) && (c <=? 57)) with false by in_range.
      replace ((97 <=? c) && (c <=? 102)) with true by in_range.
      split; [done|lia].
    - replace ((97 <=? c) && (c <=? 122)) with false by in_range.
      by split. }
  destruct Hup as [Hhex Hval].
  destruct (IH (16 * acc + JS.hexValue c)) as [IH1 IH2].
  split.
  - constructor; [done|apply IH1].
  - cbn [toUpperCase map fold_left]. rewrite Hval. apply IH2.
Qed.

(** Upper case turns the digits of [toString(16)] into 0 to 9 and A to F. *)
Lemma toUpperCase_upper ds :
  Forall lower_hex ds → Forall upper_hex (toUpperCase ds).
Proof.
  intros Hds. unfold toUpperCase. apply Forall_fmap.
  eapply Forall_impl; [done|]. intros c [Hc|Hc]; unfold upper_hex; cbn.
  - replace ((97 <=? c) && (c <=? 122)) with false by in_range. by left.
  - replace ((97 <=? c) && (c <=? 122)) with true by in_range. right. lia.
Qed.

Lemma codePointAt0_unit u : JS.codePointAt0 [u] = Some u.
Proof. unfold JS.codePointAt0. by destruct (_ && _). Qed.

Lemma mapM_entry_units text :
  mapM entry (split_units text)
  = Some ((λ u, js "\u" ++ toUpperCase (toString16 u)) <$> text).
Proof.
  induction text as [|u text IH]; [done|].
  cbn [split_units map mapM]. fold (split_units text).
  assert (entry [u] = Some (js "\u" ++ toUpperCase (toString16 u))) as ->
    by (unfold entry; by rewrite codePointAt0_unit).
  by rewrite IH.
Qed.

Lemma fromCodePoint_length cp c :
  JS.fromCodePoint (Some cp) = Ok c →
  length c = if supplementary c then 2%nat else 1%nat.
Proof.
  intros Hc. pose proof (JSFacts.codePointAt0_fromCodePoint _ _ Hc) as Hcp.
  unfold supplementary. rewrite Hcp. unfold JS.fromCodePoint in Hc.
  destruct (cp <=? 0xFFFF) eqn:Hbmp.
  - injection Hc as <-. apply N.leb_le in Hbmp.
    by replace (0xFFFF <? cp) with false by (symmetry; apply N.ltb_ge; lia).
  - destruct (cp <=? 0x10FFFF); [|done]. injection Hc as <-.
    apply N.leb_gt in Hbmp.
    by replace (0xFFFF <? cp) with true by (symmetry; apply N.ltb_lt; lia).
Qed.

Lemma join_length unicodes :
  Forall (λ c, ∃ cp, JS.fromCodePoint (Some cp) = Ok c) unicodes →
  length (JS.join unicodes)
  = (length unicodes + length (List.filter supplementary unicodes))%nat.
Proof.
  induction 1 as [|c unicodes [cp Hc] _ IH]; [done|].
  unfold JS.join in *. cbn [concat List.filter]. rewrite length_app, IH.
  rewrite (fromCodePoint_length _ _ Hc).
  destruct (supplementary c); simpl; lia.
Qed.

End ReportFacts.

Module ReportTheorems.
Import Report Spec Notions ReportFacts.

(** X1.  The listing of line 63 never throws, and holds one escape for
    each code unit of the text: [\u] and hex digits in upper case (0 to 9
    and A to F) that read back, by [parseInt(_, 16)], as that code
    unit. *)
Theorem listing_reads_back text :
  ∃ entries,
    mapM entry (split_units text) = Some entries
    ∧ listing text = Some (join_with (js " ") entries)
    ∧ length entries = length text
    ∧ ∀ i u, text !! i = Some u →
        ∃ digits, entries !! i = Some (js "\u" ++ digits)
                  ∧ digits ≠ [] ∧ Forall upper_hex digits
                  ∧ is_hex digits
                  ∧ JS.parseInt16 digits = Some u.
Proof.
  exists ((λ u, js "\u" ++ toUpperCase (toString16 u)) <$> text).
  split_and!.
  - apply mapM_entry_units.
  - unfold listing. by rewrite mapM_entry_units.
  - apply length_fmap.
  - intros i u Hu. exists (toUpperCase (toString16 u)).
    destruct (toString16_spec u) as (Hne & Hlow & Hval).
    destruct (toUpperCase_hex _ (lower_hex_is_hex _ Hlow)) as [Hhex Hsame].
    assert (Hne' : toUpperCase (toString16 u) ≠ []).
    { unfold toUpperCase. by destruct (toString16 u). }
    split_and!; [|done|by apply toUpperCase_upper|done|].
    + by rewrite list_lookup_fmap, Hu.
    + rewrite JSFacts.parseInt16_hex by done. congruence.
Qed.

(** X2.  The number of "unique characters" line 63 prints is the number
    of code units of the text: the size of the set plus one for each of
    its characters above U+FFFF, which take two code units. *)
Theorem found_count_units readFileSync files unicodes :
  Extraction.collect readFileSync files = Ok unicodes →
  found_count (JS.join unicodes)
  = (length unicodes + length (List.filter supplementary unicodes))%nat.
Proof.
  intros (hexes & Hesc & Hadd)%ExtractionFacts.collect_ok.
  apply ExtractionFacts.add_all_ok in Hadd as (_ & Hin & _).
  apply join_length, Forall_forall. intros c Hc.
  apply Hin in Hc as [?%elem_of_nil|(hex & Hhex & Hdec)]; [done|].
  apply (ExtractionFacts.escapes_elem _ _ _ _ Hesc) in Hhex
    as (f & content & i & _ & _ & Hi).
  rewrite (ExtractionFacts.decode_escape _ _ _ Hi) in Hdec. eauto.
Qed.

Lemma found_count_units_witness :
  found_count (JS.join [[0xE700]; [0xD83D; 0xDE00]; [0xE701]]) = 4%nat.
Proof.
  pose proof (found_count_units (Script.readFileSync Sample.env_icons)
                Sample.icon_files [[0xE700]; [0xD83D; 0xDE00]; [0xE701]]) as H.
  rewrite H; [reflexivity|]. vm_compute. reflexivity.
Defined.

(** X3.  The spelling of an escape does not matter: a leading zero, or
    upper case for lower case in its digits, gives the same character. *)
Theorem decode_spelling hex :
  hex ≠ [] → is_hex hex →
  decode (48 :: hex) = decode hex
  ∧ decode (toUpperCase hex) = decode hex.
Proof.
  intros Hne Hhex. unfold decode.
  destruct (toUpperCase_hex hex Hhex) as [Hup Hsame].
  rewrite (JSFacts.parseInt16_hex hex) by done.
  rewrite (JSFacts.parseInt16_hex (48 :: hex)) by (done || by constructor).
  rewrite (JSFacts.parseInt16_hex (toUpperCase hex)), Hsame;
    [done|unfold toUpperCase; by destruct hex|done].
Qed.

Lemma decode_spelling_witness :
  decode (js "0e700") = decode (js "e700")
  ∧ decode (js "E700") = decode (js "e700").
Proof.
  apply (decode_spelling (js "e700")).
  - discriminate.
  - repeat constructor.
Defined.

End ReportTheorems.

(** ** More on extraction and discovery *)

Module MoreExtractionFacts.
Import Extraction Spec ExtractionFacts.

Lemma set_add_prefix x s : s `prefix_of` JS.set_add x s.
Proof.
  unfold JS.set_add. case_bool_decide; [done|]. by apply prefix_app_r.
Qed.

Lemma add_all_prefix hexes unicodes unicodes' :
  add_all hexes unicodes = Ok unicodes' → unicodes `prefix_of` unicodes'.
Proof.
  revert unicodes. induction hexes as [|hex hexes IH]; intros unicodes; simpl.
  - by intros [= <-].
  - destruct (decode hex) as [c| |]; [|done|done].
    intros H%IH. etrans; [apply set_add_prefix|done].
Qed.

Lemma escapes_app readFileSync files1 files2 :
  escapes readFileSync (files1 ++ files2)
  = match escapes readFileSync files1, escapes readFileSync files2 with
    | Some hexes1, Some hexes2 => Some (hexes1 ++ hexes2)
    | _, _ => None
    end.
Proof.
  induction files1 as [|file files1 IH]; simpl.
  - by destruct (escapes readFileSync files2).
  - destruct (readFileSync file) as [content|]; [|done]. rewrite IH.
    destruct (escapes readFileSync files1), (escapes readFileSync files2);
      try done.
    by rewrite app_assoc.
Qed.

Lemma escapes_readable readFileSync files hexes file :
  escapes readFileSync files = Some hexes → file ∈ files →
  is_Some (readFileSync file).
Proof.
  revert hexes. induction files as [|f files IH]; intros hexes; simpl.
  - by intros _ ?%elem_of_nil.
  - destruct (readFileSync f) as [content|] eqn:Hf; [|done].
    destruct (escapes readFileSync files) as [hexes'|]; [|done].
    intros _ [->|Hin]%elem_of_cons; [by rewrite Hf|]. by eapply IH.
Qed.

Lemma while_exec_lastIndex fuel content lastIndex unicodes unicodes' lastIndex' :
  while_exec fuel content lastIndex unicodes = Ok (unicodes', lastIndex') →
  lastIndex' = 0%nat.
Proof.
  revert lastIndex unicodes. induction fuel as [|fuel IH];
    intros lastIndex unicodes; [done|].
  cbn [while_exec]. unfold RegExp.exec. case_bool_decide.
  { by intros [= _ <-]. }
  destruct (RegExp.search _ _) as [m|]; [|by intros [= _ <-]].
  destruct (JS.fromCodePoint _) as [c| |]; [|done|done]. apply IH.
Qed.

End MoreExtractionFacts.

Module MoreExtractionTheorems.
Import Extraction Spec ExtractionFacts MoreExtractionFacts.

(** X4.  The pattern object, shared by the files, is back at [lastIndex] 0
    when the loop on a file ends, wherever the loop began; so every file of
    the list is scanned from its first code unit, and the set in the end
    is the set of the beginning with the characters of all escapes of all
    files added in order. *)
Theorem pattern_reset_between_files readFileSync files unicodes unicodes'
    lastIndex' :
  forEach_file readFileSync files 0 unicodes = Ok (unicodes', lastIndex') →
  lastIndex' = 0%nat
  ∧ (∀ fuel content lastIndex u u' l,
       while_exec fuel content lastIndex u = Ok (u', l) → l = 0%nat)
  ∧ ∃ hexes, escapes readFileSync files = Some hexes
             ∧ add_all hexes unicodes = Ok unicodes'.
Proof.
  intros Hfe. pose proof Hfe as [hexes Hesc]%forEach_file_ok.
  rewrite (forEach_file_spec _ _ _ _ Hesc) in Hfe.
  destruct (add_all hexes unicodes) as [u| |] eqn:Hadd; [|done|done].
  injection Hfe as <- <-. split_and!; [done| |by exists hexes].
  intros fuel content lastIndex u0 u' l. apply while_exec_lastIndex.
Qed.

Lemma pattern_reset_between_files_witness :
  ∃ hexes,
    escapes (Script.readFileSync Sample.env_icons) Sample.icon_files
    = Some hexes
    ∧ add_all hexes [] = Ok [[0xE700]; [0xD83D; 0xDE00]; [0xE701]].
Proof.
  apply (pattern_reset_between_files (Script.readFileSync Sample.env_icons)
           Sample.icon_files [] [[0xE700]; [0xD83D; 0xDE00]; [0xE701]] 0).
  vm_compute. reflexivity.
Defined.

(** X5.  Characters are kept in the order of their first appearance:
    what [extractUnicodes] collects from the first files of a list begins
    what it collects from the whole list. *)
Theorem collect_prefix readFileSync files1 files2 unicodes :
  collect readFileSync (files1 ++ files2) = Ok unicodes →
  ∃ unicodes1,
    collect readFileSync files1 = Ok unicodes1
    ∧ unicodes1 `prefix_of` unicodes
    ∧ ∃ text2, extractUnicodes readFileSync (files1 ++ files2)
               = Ok (JS.join unicodes1 ++ text2).
Proof.
  intros Hc. pose proof Hc as (hexes & Hesc & Hadd)%collect_ok.
  rewrite escapes_app in Hesc.
  destruct (escapes readFileSync files1) as [hexes1|] eqn:H1; [|done].
  destruct (escapes readFileSync files2) as [hexes2|] eqn:H2; [|done].
  injection Hesc as <-. rewrite add_all_app in Hadd.
  destruct (add_all hexes1 []) as [unicodes1| |] eqn:Hadd1; [|done|done].
  exists unicodes1. rewrite (collect_spec _ _ _ H1).
  apply add_all_prefix in Hadd as [rest ->].
  split_and!; [done|by exists rest|].
  exists (JS.join rest). unfold extractUnicodes. rewrite Hc.
  unfold JS.join. by rewrite concat_app.
Qed.

Lemma collect_prefix_witness :
  ∃ unicodes1,
    collect (Script.readFileSync Sample.env_icons)
      [[js "repo"; js "src"; js "app.slint"]] = Ok unicodes1
    ∧ unicodes1 `prefix_of` [[0xE700]; [0xD83D; 0xDE00]; [0xE701]]
    ∧ ∃ text2,
        extractUnicodes (Script.readFileSync Sample.env_icons)
          ([[js "repo"; js "src"; js "app.slint"]]
           ++ [[js "repo"; js "src"; js "ui"; js "home.slint"]])
        = Ok (JS.join unicodes1 ++ text2).
Proof.
  apply (collect_prefix (Script.readFileSync Sample.env_icons)
           [[js "repo"; js "src"; js "app.slint"]]
           [[js "repo"; js "src"; js "ui"; js "home.slint"]]).
  vm_compute. reflexivity.
Defined.

(** The text is empty exactly when every file can be read and none holds
    a well-formed escape. *)
Lemma extractUnicodes_empty_iff readFileSync files :
  extractUnicodes readFileSync files = Ok []
  ↔ (∀ file, file ∈ files → is_Some (readFileSync file))
    ∧ ∀ hex, ¬ escaped_in readFileSync files hex.
Proof.
  split; [|intros [? ?]; by apply extract_nothing].
  unfold extractUnicodes.
  destruct (collect readFileSync files) as [unicodes| |] eqn:Hc; [|done|done].
  intros [= Hjoin]. pose proof Hc as (hexes & Hesc & Hadd)%collect_ok.
  apply add_all_ok in Hadd as (_ & Hin & Hall).
  assert (unicodes = []) as ->.
  { apply join_nil; [|done]. intros c Hc'.
    apply Hin in Hc' as [?%elem_of_nil|(hex & _ & Hdec)]; [done|].
    by eapply JSFacts.fromCodePoint_nonempty. }
  split.
  - intros file Hfile. by eapply escapes_readable.
  - intros hex Hhex%(escapes_elem _ _ _ _ Hesc).
    destruct (Hall hex Hhex) as [c Hdec].
    assert (c ∈ @nil jsstring) as ?%elem_of_nil; [|done].
    apply Hin. right. eauto.
Qed.

End MoreExtractionTheorems.

Module MoreDiscoveryTheorems.
Import Discovery Spec DiscoveryFacts.

Lemma forEach_entry_accumulates dirPath entries :
  Forall (λ e, ∀ dirPath arrayOfFiles,
            getAllFiles dirPath e.2 arrayOfFiles
            = (arrayOfFiles ++.) <$> getAllFiles dirPath e.2 []) entries →
  ∀ arrayOfFiles,
    forEach_entry dirPath entries arrayOfFiles
    = (arrayOfFiles ++.) <$> forEach_entry dirPath entries [].
Proof.
  intros Hall. induction Hall as [|[file n] entries Hn _ IH]; intros arr.
  - cbn. by rewrite app_nil_r.
  - cbn [forEach_entry]. destruct n as [content|sub].
    + destruct (JS.endsWith file extension).
      * rewrite (IH (arr ++ [dirPath ++ [file]])), (IH ([] ++ [dirPath ++ [file]])).
        destruct (forEach_entry dirPath entries []) as [found|]; [|done].
        cbn. by rewrite <- app_assoc.
      * apply IH.
    + cbn [snd] in Hn. rewrite (Hn (dirPath ++ [file]) arr).
      generalize (getAllFiles (dirPath ++ [file]) (Dir sub) []).
      intros [found1|]; [|done]. cbn.
      rewrite (IH (arr ++ found1)), (IH found1).
      destruct (forEach_entry dirPath entries []) as [found|]; [|done].
      cbn. by rewrite <- app_assoc.
Qed.

(** X7.  An array passed to [getAllFiles] is kept and extended: the result
    is that array followed by what a call without array returns, and the
    call fails on that array when it fails without. *)
Theorem getAllFiles_accumulates d dirPath arrayOfFiles :
  getAllFiles dirPath d arrayOfFiles
  = (arrayOfFiles ++.) <$> getAllFiles dirPath d [].
Proof.
  revert dirPath arrayOfFiles.
  induction d as [content|entries IH] using node_ind;
    intros dirPath arr; [done|].
  rewrite !getAllFiles_Dir. by apply forEach_entry_accumulates.
Qed.

End MoreDiscoveryTheorems.

(** ** More on the script *)

Module FrameFacts.
Import Fs Script Spec Notions ScriptFacts.

#[local] Arguments SRC_DIR : simpl never.
#[local] Arguments FONT_SOURCE : simpl never.
#[local] Arguments TEMP_DIR : simpl never.
#[local] Arguments targetFile : simpl never.
#[local] Arguments generatedFile : simpl never.
#[local] Arguments Extraction.extractUnicodes : simpl never.
#[local] Arguments Discovery.getAllFiles : simpl never.
#[local] Arguments mkdirSync_recursive : simpl never.
#[local] Arguments existsSync : simpl never.

Lemma frames_bind touched {A B} (m : M A) (f : A → M B) :
  frames touched m → (∀ a, frames touched (f a)) → frames touched (m ≫= f).
Proof.
  intros Hm Hf st o st'. rewrite bind_eq.
  destruct (m st) as [o1 st1] eqn:H1. pose proof (Hm _ _ _ H1) as Hm1.
  destruct o1 as [a| | |]; try (by intros [= <- <-]).
  intros H2 q Hq. rewrite (Hf a _ _ _ H2 q Hq). by apply Hm1.
Qed.

Lemma frames_pure touched {A} (m : M A) :
  (∀ st, files (m st).2 = files st) → frames touched m.
Proof. intros Hm st o st' Heq q _. by rewrite <- (Hm st), Heq. Qed.

Lemma frames_fs_update touched E site syscall op :
  (∀ s s', op s = Ok s' → ∀ q, ¬ touched q → s' !! q = s !! q) →
  frames touched (fs_update E site syscall op).
Proof.
  intros Hop st o st'. unfold fs_update. destruct (fails E site).
  - by intros [= <- <-].
  - destruct (op (files st)) as [s'| |] eqn:Hs; intros [= <- <-]; [|done..].
    cbn. by apply Hop.
Qed.

Lemma frames_stat_size touched E site p : frames touched (stat_size E site p).
Proof.
  apply frames_pure. intros st. unfold stat_size, lift.
  by destruct (fails E site).
Qed.

Lemma frames_when touched b m :
  frames touched m → frames touched (when b m).
Proof. intros Hm. destruct b; [done|]. by apply frames_pure. Qed.

Lemma publish_frames E : frames (published_or_temp E) (publish E).
Proof.
  unfold publish.
  repeat first
    [ apply frames_bind; [|intros ?]
    | apply frames_when
    | apply frames_stat_size
    | by apply frames_pure
    | apply frames_fs_update; intros s s' Hop q Hq ].
  - unfold unlinkSync in Hop. repeat case_match; simplify_eq.
    apply lookup_delete_ne. intros <-. apply Hq. by left.
  - unfold copyFileSync in Hop. repeat case_match; simplify_eq;
      (apply lookup_insert_ne; intros <-; apply Hq; by left).
  - unfold unlinkSync in Hop. repeat case_match; simplify_eq.
    apply lookup_delete_ne. intros <-. apply Hq. right. by left.
  - unfold rmdirSync in Hop. repeat case_match; simplify_eq.
    apply lookup_delete_ne. intros <-. apply Hq. right. by right.
Qed.

Lemma callback_frames E err : frames (published_or_temp E) (callback E err).
Proof.
  intros st o st'. destruct err as [e|].
  - rewrite callback_err. by intros [= <- <-].
  - destruct (existsSync (files st) (generatedFile E)) eqn:Hgen.
    + rewrite callback_present by done.
      destruct (publish E st) as [o1 st1] eqn:Hp.
      pose proof (publish_frames E _ _ _ Hp) as Hframe.
      destruct o1; intros [= <- <-]; done.
    + rewrite callback_missing by done. by intros [= <- <-].
Qed.

Lemma toplevel_frames E :
  frames (λ q, q `prefix_of` TEMP_DIR E) (toplevel E).
Proof.
  unfold toplevel.
  repeat first
    [ apply frames_bind; [|intros ?]
    | apply frames_when
    | by apply frames_pure
    | apply frames_fs_update; intros s s' Hop q Hq ].
  - apply frames_pure. intros st. unfold discover.
    destruct (src_tree E) as [d|]; [|done].
    by destruct (Discovery.getAllFiles (SRC_DIR E) d []).
  - apply mkdirSync_recursive_ok in Hop as (_ & Hfar & _). by apply Hfar.
Qed.

Lemma ancestors_nonempty p q : q ∈ ancestors p → q ≠ [].
Proof.
  unfold ancestors.
  intros (n & -> & [Hn1 Hn2]%elem_of_seq)%list_elem_of_fmap.
  destruct p; simpl in *; [lia|]. destruct n; [lia|done].
Qed.

Lemma mkdirSync_recursive_new s p s' q e :
  mkdirSync_recursive s p = Ok s' → s' !! q = Some e →
  s !! q = Some e ∨ (s !! q = None ∧ e = EDir ∧ q `prefix_of` p ∧ q ≠ []).
Proof.
  unfold mkdirSync_recursive. destruct (forallb _ _); [|done].
  intros [= <-]. rewrite mkdir_fold_lookup.
  destruct (s !! q) as [e'|]; [by left|].
  case_bool_decide as Hq; [|done]. intros [= <-]. right.
  split_and!; [done..|by apply ancestors_prefix|by eapply ancestors_nonempty].
Qed.

Lemma mkdirSync_recursive_blocked s p q c :
  q ∈ ancestors p → s !! q = Some (EFile c) →
  mkdirSync_recursive s p = Throw (FsError "mkdir").
Proof.
  intros Hq Hs. unfold mkdirSync_recursive.
  destruct (forallb _ _) eqn:Hall; [|done].
  rewrite forallb_forall in Hall. apply list_elem_of_In in Hq.
  specialize (Hall q Hq). by rewrite Hs in Hall.
Qed.

(** The top level exits with code 0 at line 67 only, the text being
    empty. *)
Lemma toplevel_exit_0 E s st1 :
  toplevel E (State s [] []) = (Exited 0, st1) →
  existsSync s (FONT_SOURCE E) = true
  ∧ ∃ d slintFiles,
      src_tree E = Some d
      ∧ Discovery.getAllFiles (SRC_DIR E) d [] = Some slintFiles
      ∧ Extraction.extractUnicodes (readFileSync E) slintFiles = Ok [].
Proof.
  unfold toplevel, discover. steps.
  destruct (existsSync s (FONT_SOURCE E)) eqn:Hfont; cbn; [|done].
  destruct (src_tree E) as [d|] eqn:Htree; [|done].
  destruct (Discovery.getAllFiles (SRC_DIR E) d []) as [slintFiles|] eqn:Hfiles;
    [|done].
  cbn.
  destruct (Extraction.extractUnicodes (readFileSync E) slintFiles)
    as [text| |] eqn:Htext; [|done|done].
  cbn. case_bool_decide as Hempty; cbn.
  - intros _. split; [done|]. exists d, slintFiles.
    split_and!; [done..|]. by destruct text.
  - destruct (existsSync s (TEMP_DIR E)); cbn; [done|].
    destruct (fails E MkdirTemp); [done|]. cbn.
    by destruct (mkdirSync_recursive s (TEMP_DIR E)).
Qed.

(** With a text that is not empty the top level goes past line 65: it
    reaches [fontmin.run] with that text, unless [mkdirSync] throws. *)
Lemma toplevel_with_icons E s d slintFiles text :
  existsSync s (FONT_SOURCE E) = true →
  src_tree E = Some d →
  Discovery.getAllFiles (SRC_DIR E) d [] = Some slintFiles →
  Extraction.extractUnicodes (readFileSync E) slintFiles = Ok text →
  text ≠ [] →
  ∃ o st1,
    toplevel E (State s [] []) = (o, st1)
    ∧ console st1 = [LogScanning; LogFoundFiles (length slintFiles);
                     LogExtracting; LogFoundCharacters text; LogSubsetting]
    ∧ (o = Returned (EngineConfig (FONT_SOURCE E) text false (TEMP_DIR E))
       ∨ o = Uncaught (FsError "mkdir")).
Proof.
  intros Hfont Htree Hfiles Htext Hne.
  unfold toplevel, discover. steps.
  rewrite Hfont, Htree, Hfiles. cbn. rewrite Htext. cbn.
  rewrite bool_decide_eq_false_2 by (by destruct text). cbn.
  destruct (existsSync s (TEMP_DIR E)); cbn; [eauto 6|].
  destruct (fails E MkdirTemp); [eauto 6|]. cbn.
  unfold mkdirSync_recursive. destruct (forallb _ _); eauto 6.
Qed.

End FrameFacts.

Module MoreScriptTheorems.
Import Fs Script Spec Notions ScriptFacts FrameFacts.

#[local] Arguments SRC_DIR : simpl never.
#[local] Arguments FONT_SOURCE : simpl never.
#[local] Arguments TEMP_DIR : simpl never.
#[local] Arguments targetFile : simpl never.
#[local] Arguments generatedFile : simpl never.
#[local] Arguments Extraction.extractUnicodes : simpl never.
#[local] Arguments Discovery.getAllFiles : simpl never.
#[local] Arguments mkdirSync_recursive : simpl never.
#[local] Arguments existsSync : simpl never.

(** X8.  When the engine reports an error, the callback writes it on the
    console and the process exits with code 1: nothing is published, and
    the files are as the script left them when it called the engine. *)
Theorem run_engine_error E s config st1 e :
  toplevel E (State s [] []) = (Returned config, st1) →
  engine E config (files st1) = EngineErr e →
  (run E s).1 = Exited 1
  ∧ exit_code (run E s).1 = Some 1
  ∧ last (console (run E s).2) = Some (ErrSubsetting e)
  ∧ files (run E s).2 = files st1
  ∧ files (run E s).2 !! targetFile E = s !! targetFile E
  ∧ engine_calls (run E s).2 = [config].
Proof.
  intros Htop Hengine.
  rewrite (run_reaches_callback E s config st1 Htop), Hengine, callback_err.
  cbn. split_and!; [done|done|by rewrite last_snoc|done| |done].
  apply toplevel_returned in Htop as (_ & _ & _ & _ & _ & _ & _ & Hfar).
  apply Hfar, target_far.
Qed.

Lemma run_engine_error_witness :
  (run MoreSample.env_failing Sample.published).1 = Exited 1
  ∧ exit_code (run MoreSample.env_failing Sample.published).1 = Some 1
  ∧ last (console (run MoreSample.env_failing Sample.published).2)
    = Some (ErrSubsetting EngineError)
  ∧ files (run MoreSample.env_failing Sample.published).2
    = files (toplevel MoreSample.env_failing
               (State Sample.published [] [])).2
  ∧ files (run MoreSample.env_failing Sample.published).2
      !! targetFile MoreSample.env_failing
    = Sample.published !! targetFile MoreSample.env_failing
  ∧ engine_calls (run MoreSample.env_failing Sample.published).2
    = [EngineConfig (FONT_SOURCE MoreSample.env_failing)
         [0xE700; 0xD83D; 0xDE00; 0xE701] false
         (TEMP_DIR MoreSample.env_failing)].
Proof.
  apply (run_engine_error MoreSample.env_failing Sample.published
           (EngineConfig (FONT_SOURCE MoreSample.env_failing)
              [0xE700; 0xD83D; 0xDE00; 0xE701] false
              (TEMP_DIR MoreSample.env_failing))
           (toplevel MoreSample.env_failing (State Sample.published [] [])).2
           EngineError).
  - vm_compute. reflexivity.
  - reflexivity.
Defined.

(** X9.  Every run ends, and its exit code is 0 or 1. *)
Theorem run_exits_0_or_1 E s :
  exit_code (run E s).1 = Some 0 ∨ exit_code (run E s).1 = Some 1.
Proof. apply run_exit_code. Qed.

(** X10.  When the directory of the UI sources is missing or is no
    directory, [readdirSync] throws in [getAllFiles]: the run ends on the
    uncaught exception with exit code 1, having printed the first line
    only and changed no file. *)
Theorem run_without_sources E s :
  existsSync s (FONT_SOURCE E) = true →
  src_tree E = None ∨ (∃ content, src_tree E = Some (Discovery.File content)) →
  (run E s).1 = Uncaught (FsError "scandir")
  ∧ exit_code (run E s).1 = Some 1
  ∧ files (run E s).2 = s
  ∧ console (run E s).2 = [LogScanning]
  ∧ engine_calls (run E s).2 = [].
Proof.
  intros Hfont Htree.
  assert (run E s = (Uncaught (FsError "scandir"), State s [LogScanning] []))
    as ->; [|done].
  unfold run, main, toplevel, discover. steps. rewrite Hfont.
  by destruct Htree as [->|[content ->]].
Qed.

Lemma run_without_sources_witness :
  (run MoreSample.env_no_sources Sample.published).1
  = Uncaught (FsError "scandir")
  ∧ exit_code (run MoreSample.env_no_sources Sample.published).1 = Some 1
  ∧ files (run MoreSample.env_no_sources Sample.published).2
    = Sample.published
  ∧ console (run MoreSample.env_no_sources Sample.published).2
    = [LogScanning]
  ∧ engine_calls (run MoreSample.env_no_sources Sample.published).2 = [].
Proof.
  apply (run_without_sources MoreSample.env_no_sources Sample.published).
  - vm_compute. reflexivity.
  - left. reflexivity.
Defined.

(** X6.  The exit of line 67 is taken exactly when the text is empty,
    and the text is empty exactly when every file found can be read and
    none holds a well-formed escape: the run exits with code 0 there for
    no other reason.  With a text that is not empty the script goes past
    line 65, prints the subsetting line and reaches [fontmin.run] with
    that text, unless [mkdirSync] throws; so no icon found is
    discarded. *)
Theorem exit_0_iff_no_icons E s :
  ((run E s).1 = Exited 0 ↔
   existsSync s (FONT_SOURCE E) = true
   ∧ ∃ d slintFiles,
       src_tree E = Some d
       ∧ Discovery.getAllFiles (SRC_DIR E) d [] = Some slintFiles
       ∧ Extraction.extractUnicodes (readFileSync E) slintFiles = Ok [])
  ∧ (∀ slintFiles,
       Extraction.extractUnicodes (readFileSync E) slintFiles = Ok []
       ↔ (∀ file, file ∈ slintFiles → is_Some (readFileSync E file))
         ∧ ∀ hex, ¬ escaped_in (readFileSync E) slintFiles hex)
  ∧ (∀ d slintFiles text,
       existsSync s (FONT_SOURCE E) = true →
       src_tree E = Some d →
       Discovery.getAllFiles (SRC_DIR E) d [] = Some slintFiles →
       Extraction.extractUnicodes (readFileSync E) slintFiles = Ok text →
       text ≠ [] →
       (run E s).1 ≠ Exited 0
       ∧ ∃ o st1,
           toplevel E (State s [] []) = (o, st1)
           ∧ last (console st1) = Some LogSubsetting
           ∧ (o = Returned (EngineConfig (FONT_SOURCE E) text false
                                         (TEMP_DIR E))
              ∨ o = Uncaught (FsError "mkdir"))).
Proof.
  assert (Hexit : (run E s).1 = Exited 0 ↔
            existsSync s (FONT_SOURCE E) = true
            ∧ ∃ d slintFiles,
                src_tree E = Some d
                ∧ Discovery.getAllFiles (SRC_DIR E) d [] = Some slintFiles
                ∧ Extraction.extractUnicodes (readFileSync E) slintFiles
                  = Ok []).
  { split.
    - destruct (toplevel E (State s [] [])) as [o st1] eqn:Htop.
      assert (Hcases : (∃ config, o = Returned config)
                       ∨ ∀ config, o ≠ Returned config).
      { destruct o; eauto. }
      destruct Hcases as [[config ->]|Hstop].
      + rewrite (run_reaches_callback E s config st1 Htop).
        destruct (engine E config (files st1)) as [e|written].
        * by rewrite callback_err.
        * match goal with
          | |- context [callback E None ?st] =>
              destruct (existsSync (files st) (generatedFile E)) eqn:Hgen;
              [destruct (callback_returns E st Hgen) as (st' & -> & _)
              |rewrite (callback_missing E st Hgen)]
          end; done.
      + destruct (run_stops_before_engine E s o st1 Htop Hstop)
          as (o' & Hrun & Hcode & _).
        rewrite Hrun. cbn [fst]. intros ->. cbn in Hcode.
        destruct o as [config|code|e|]; [by destruct (Hstop config)| |done..].
        injection Hcode as <-. by apply (toplevel_exit_0 E s st1).
    - intros (Hfont & d & slintFiles & Htree & Hfiles & Htext).
      pose proof (ScriptTheorems.run_extracted E s d slintFiles
                    Hfont Htree Hfiles) as Hrun.
      rewrite Htext in Hrun. by rewrite Hrun. }
  split_and!; [done| |].
  - intros slintFiles.
    apply MoreExtractionTheorems.extractUnicodes_empty_iff.
  - intros d slintFiles text Hfont Htree Hfiles Htext Hne. split.
    + intros (_ & d' & slintFiles' & Htree' & Hfiles' & Htext')%Hexit.
      rewrite Htree in Htree'. injection Htree' as <-.
      rewrite Hfiles in Hfiles'. injection Hfiles' as <-.
      rewrite Htext in Htext'. by injection Htext'.
    + destruct (toplevel_with_icons E s d slintFiles text)
        as (o & st1 & Htop & Hconsole & Ho); try done.
      exists o, st1. split_and!; [done| |done]. by rewrite Hconsole.
Qed.

(** The files when the engine is called, against the files before. *)
Lemma toplevel_store E s config st1 :
  toplevel E (State s [] []) = (Returned config, st1) →
  existsSync (files st1) (TEMP_DIR E) = true
  ∧ (∀ q e, s !! q = Some e → files st1 !! q = Some e)
  ∧ (∀ q e, files st1 !! q = Some e →
       s !! q = Some e
       ∨ (s !! q = None ∧ e = EDir ∧ q `prefix_of` TEMP_DIR E ∧ q ≠ []))
  ∧ (existsSync s (TEMP_DIR E) = true → files st1 = s).
Proof.
  intros Htop.
  pose proof Htop as (_ & _ & _ & _ & _ & Hexists & Hkeep & _)%toplevel_returned.
  split_and!; [done|done|..]; revert Htop;
    unfold toplevel, discover; steps;
    destruct (existsSync s (FONT_SOURCE E)); [|done| |done]; cbn;
    (destruct (src_tree E) as [d|]; [|done]);
    (destruct (Discovery.getAllFiles (SRC_DIR E) d []) as [slintFiles|];
       [|done]); cbn;
    (destruct (Extraction.extractUnicodes (readFileSync E) slintFiles)
       as [text| |]; [|done|done]); cbn;
    (case_bool_decide; [done|]); cbn;
    (destruct (existsSync s (TEMP_DIR E)) eqn:Htemp; cbn).
  - intros [= _ <-] q e Hq. by left.
  - destruct (fails E MkdirTemp); [done|]. cbn.
    destruct (mkdirSync_recursive s (TEMP_DIR E)) as [s'| |] eqn:Hmk;
      [|done|done].
    intros [= _ <-] q e Hq. cbn in Hq.
    by apply (mkdirSync_recursive_new _ _ _ _ _ Hmk).
  - by intros [= _ <-] _.
  - by intros _ ?.
Qed.

(** X11.  Up to the call of the engine the script changes the files in
    one way only: it makes the temporary directory, and the directories
    above it, where they are missing.  Every entry is kept, and every new
    entry is a directory on the way to the temporary directory.  The
    script tests the temporary path for existence only: when the engine
    is called the path holds a directory, unless a regular file stood
    there before the run, which is then left as it is; nothing is made
    when the path existed before. *)
Theorem temp_dir_prepared E s config st1 :
  toplevel E (State s [] []) = (Returned config, st1) →
  existsSync (files st1) (TEMP_DIR E) = true
  ∧ ((∀ content, s !! TEMP_DIR E ≠ Some (EFile content)) →
     files st1 !! TEMP_DIR E = Some EDir)
  ∧ (∀ content, s !! TEMP_DIR E = Some (EFile content) →
     files st1 = s ∧ files st1 !! TEMP_DIR E = Some (EFile content))
  ∧ (∀ q e, s !! q = Some e → files st1 !! q = Some e)
  ∧ (∀ q e, files st1 !! q = Some e →
       s !! q = Some e
       ∨ (s !! q = None ∧ e = EDir ∧ q `prefix_of` TEMP_DIR E ∧ q ≠ []))
  ∧ (existsSync s (TEMP_DIR E) = true → files st1 = s).
Proof.
  intros (Hexists & Hkeep & Hnew & Hsame)%toplevel_store.
  split_and!; [done| | |done..].
  - intros Hnofile. apply existsSync_true in Hexists as [e He].
    destruct (Hnew _ _ He) as [Hold|(_ & -> & _)]; [|done].
    destruct e as [content|]; [|done]. by destruct (Hnofile content).
  - intros content Hfile.
    assert (files st1 = s) as ->; [|done].
    apply Hsame. apply existsSync_true. by rewrite Hfile.
Qed.

Lemma temp_dir_prepared_witness :
  files (toplevel Sample.env_icons (State Sample.published [] [])).2
    !! TEMP_DIR Sample.env_icons = Some EDir.
Proof.
  destruct (temp_dir_prepared Sample.env_icons Sample.published
              (EngineConfig (FONT_SOURCE Sample.env_icons)
                 [0xE700; 0xD83D; 0xDE00; 0xE701] false
                 (TEMP_DIR Sample.env_icons))
              (toplevel Sample.env_icons (State Sample.published [] [])).2)
    as (_ & Hdir & _).
  - vm_compute. reflexivity.
  - apply Hdir. intros content. vm_compute. discriminate.
Defined.

(** X12.  Whatever the engine writes into the temporary directory and
    whatever fails, a run changes no file but the published font and what
    lies in the temporary directory or above it; the source font, for
    one, is never changed or deleted. *)
Theorem run_frame E s :
  (∀ q, q ≠ targetFile E → ¬ near_temp E q →
        files (run E s).2 !! q = s !! q)
  ∧ files (run E s).2 !! FONT_SOURCE E = s !! FONT_SOURCE E.
Proof.
  assert (Hframe : ∀ q, q ≠ targetFile E → ¬ near_temp E q →
                        files (run E s).2 !! q = s !! q).
  { intros q Htarget Hfar.
    assert (Hq : ¬ published_or_temp E q).
    { intros [-> | [-> | ->]]; [done|apply Hfar..].
      - right. unfold generatedFile. by apply prefix_app_r.
      - by left. }
    destruct (toplevel E (State s [] [])) as [o st1] eqn:Htop.
    assert (Hst1 : files st1 !! q = s !! q).
    { apply (toplevel_frames E _ _ _ Htop). intros ?. apply Hfar. by left. }
    assert (Hcases : (∃ config, o = Returned config)
                     ∨ ∀ config, o ≠ Returned config).
    { destruct o; eauto. }
    destruct Hcases as [[config ->]|Hstop].
    - rewrite (run_reaches_callback E s config st1 Htop).
      destruct (engine E config (files st1)) as [e|written];
        match goal with
        | |- files (callback ?E ?err ?st).2 !! _ = _ =>
            destruct (callback E err st) as [o' st'] eqn:Hcb;
            cbn [snd]; rewrite (callback_frames E _ _ _ _ Hcb q Hq)
        end; cbn [files snd]; [done|].
      by rewrite write_files_far.
    - destruct (run_stops_before_engine E s o st1 Htop Hstop)
        as (o' & -> & _). done. }
  split; [done|]. apply Hframe; [apply source_not_target|apply source_far].
Qed.

(** X13.  When the glyph set is not empty and the temporary directory
    cannot be made, [mkdirSync] being refused or finding a file on its
    way, the run ends on the uncaught exception with exit code 1 before
    the engine is called, and changes no file. *)
Theorem run_mkdir_fails E s d slintFiles text :
  existsSync s (FONT_SOURCE E) = true →
  src_tree E = Some d →
  Discovery.getAllFiles (SRC_DIR E) d [] = Some slintFiles →
  Extraction.extractUnicodes (readFileSync E) slintFiles = Ok text →
  text ≠ [] →
  existsSync s (TEMP_DIR E) = false →
  fails E MkdirTemp = true
  ∨ (∃ q content, q ∈ ancestors (TEMP_DIR E) ∧ s !! q = Some (EFile content)) →
  (run E s).1 = Uncaught (FsError "mkdir")
  ∧ exit_code (run E s).1 = Some 1
  ∧ files (run E s).2 = s
  ∧ engine_calls (run E s).2 = [].
Proof.
  intros Hfont Htree Hfiles Htext Hne Htemp Hfail.
  assert (∃ log, run E s = (Uncaught (FsError "mkdir"), State s log []))
    as [log ->]; [|done].
  unfold run, main, toplevel, discover. steps.
  rewrite Hfont, Htree, Hfiles. cbn. rewrite Htext. cbn.
  rewrite bool_decide_eq_false_2 by (by destruct text). cbn.
  rewrite Htemp. cbn. destruct (fails E MkdirTemp) eqn:Hrefused; [eauto|].
  destruct Hfail as [?|(q & content & Hq & Hs)]; [done|].
  rewrite (mkdirSync_recursive_blocked _ _ _ _ Hq Hs). eauto.
Qed.

Lemma run_mkdir_fails_witness :
  (run MoreSample.env_mkdir_refused Sample.published).1
  = Uncaught (FsError "mkdir")
  ∧ exit_code (run MoreSample.env_mkdir_refused Sample.published).1 = Some 1
  ∧ files (run MoreSample.env_mkdir_refused Sample.published).2
    = Sample.published
  ∧ engine_calls (run MoreSample.env_mkdir_refused Sample.published).2 = [].
Proof.
  apply (run_mkdir_fails MoreSample.env_mkdir_refused Sample.published
           Sample.ui_sources Sample.icon_files
           [0xE700; 0xD83D; 0xDE00; 0xE701]).
  - vm_compute. reflexivity.
  - reflexivity.
  - vm_compute. reflexivity.
  - vm_compute. reflexivity.
  - discriminate.
  - vm_compute. reflexivity.
  - left. reflexivity.
Defined.

End MoreScriptTheorems.
